(** * Story lifecycle, feed visibility and engagement side effects

    A shallow embedding of the route handlers of the backend
    (routes/stories.js, routes/posts.js, routes/interactions.js,
    routes/notifications.js, routes/auth.js and the story expiration job of
    server.js) over an explicit model of the document store and of the media
    service.

    Conventions of the model.
    - A handler is modelled as the function the router is given: the
      request has been authenticated ([req.user.userId] is an ObjectId).  A
      handler that takes a document id from the path is stated on the
      ObjectId the path segment casts to; the cast of a segment and the
      order in which a router tries its routes are modelled apart, in the
      section on the order of the routes.
    - A name a handler uses is resolved in the scope of its module.  The
      handlers of routes/stories.js, routes/posts.js and
      routes/interactions.js that call [validationResult] do so before
      their [try] block, and these files do not import the name (only
      routes/auth.js does): the call throws a ReferenceError, which leaves
      the handler.  What the framework does with it is not modelled.
    - Every [new Date()] / [Date.now] read of one request is one instant,
      the argument [now] of the handler.
    - Store operations are executed one request at a time; they do not fail
      on a well-formed id.  Inside a [try], the only rejecting promises are
      the media service's [destroy] and a query on a path segment that is
      no ObjectId.
    - The notifications route and the account routes (register, login) are
      modelled in a second part, on the store extended with users and
      comments.
    - Line numbers are those of the files under src/: routes/stories.js
      and routes/notifications.js are in part_001, routes/auth.js and
      server.js in part_002, the models in part_000 and part_001.
    - Left out: the search routes and GET /api/auth/profile/:username, which
      only read, and PUT /api/auth/profile, which rewrites the bio and the
      picture of a user and calls the media service ([destroy] on the old
      profile picture, then [upload]); the middleware of server.js (rate
      limit, CORS).  A statement about every request ranges over the
      requests modelled. *)

From stdpp Require Import base option list strings gmap fin_maps sorting.
From Stdlib Require Import ZArith.

Local Open Scope string_scope.
Local Open Scope list_scope.
Local Open Scope Z_scope.

(** ** Data model (models/*.js) *)

(** A mongoose ObjectId, a 12-byte value. *)
Definition ObjectId := N.
Bind Scope N_scope with ObjectId.

(** A JavaScript [Date], as its number of milliseconds since the epoch. *)
Definition Date := Z.

Module Story.
(** models/Story.js; the [_id] of a document is its key in the collection. *)
Record t := mk {
  userId : ObjectId;
  mediaUrl : string;
  mediaId : string;
  caption : option string;
  createdAt : Date;
  expiresAt : Date;
  isActive : bool;
}.

(** The update document [{ isActive: b }]. *)
Definition set_isActive (b : bool) (s : t) : t :=
  mk (userId s) (mediaUrl s) (mediaId s) (caption s) (createdAt s) (expiresAt s) b.
End Story.

Module Post.
(** models/Post.js *)
Record t := mk {
  userId : ObjectId;
  mediaUrl : string;
  mediaId : string;
  caption : option string;
  hashtags : list string;
  createdAt : Date;
}.
End Post.

Module Notification.
Inductive type := like | comment | follow | story_view.

(** models/Notification.js *)
Record t := mk {
  userId : ObjectId;
  type_ : type;
  fromUserId : ObjectId;
  postId : option ObjectId;
  storyId : option ObjectId;
  createdAt : Date;
}.
End Notification.

Module StoryView.
(** Modelled from the spec: the schema models/StoryView.js is not among the
    sources; a view row carries the story and the viewer, the two fields
    the handler writes. *)
Record t := mk { storyId : ObjectId; userId : ObjectId }.
End StoryView.

Module Like.
(** Modelled from the spec: the schema models/Like.js is not among the
    sources; a like is a (postId, userId) pair, the two fields the handler
    writes. *)
Record t := mk { postId : ObjectId; userId : ObjectId }.
End Like.

Module Follow.
(** Modelled from the spec: the schema models/Follow.js is not among the
    sources; an edge is a (followerId, followedId) pair, the two fields the
    handler writes. *)
Record t := mk { followerId : ObjectId; followedId : ObjectId }.
End Follow.

#[global] Instance story_eq_dec : EqDecision Story.t.
Proof. solve_decision. Defined.
#[global] Instance like_eq_dec : EqDecision Like.t.
Proof. solve_decision. Defined.
#[global] Instance follow_eq_dec : EqDecision Follow.t.
Proof. solve_decision. Defined.

(** ** The world: the collections and the media service's call log *)

Record World := mkWorld {
  stories : gmap ObjectId Story.t;
  posts : gmap ObjectId Post.t;
  storyviews : list StoryView.t;
  likes : list Like.t;
  follows : list Follow.t;
  notifications : list Notification.t;
  (** public ids passed to [cloudinary.uploader.destroy], oldest first *)
  destroyed : list string;
}.

Definition empty_world : World := mkWorld ∅ ∅ [] [] [] [] [].

Definition set_stories (f : gmap ObjectId Story.t → gmap ObjectId Story.t) (w : World) : World :=
  mkWorld (f (stories w)) (posts w) (storyviews w) (likes w) (follows w)
          (notifications w) (destroyed w).
Definition set_posts (f : gmap ObjectId Post.t → gmap ObjectId Post.t) (w : World) : World :=
  mkWorld (stories w) (f (posts w)) (storyviews w) (likes w) (follows w)
          (notifications w) (destroyed w).
Definition set_storyviews (f : list StoryView.t → list StoryView.t) (w : World) : World :=
  mkWorld (stories w) (posts w) (f (storyviews w)) (likes w) (follows w)
          (notifications w) (destroyed w).
Definition set_likes (f : list Like.t → list Like.t) (w : World) : World :=
  mkWorld (stories w) (posts w) (storyviews w) (f (likes w)) (follows w)
          (notifications w) (destroyed w).
Definition set_follows (f : list Follow.t → list Follow.t) (w : World) : World :=
  mkWorld (stories w) (posts w) (storyviews w) (likes w) (f (follows w))
          (notifications w) (destroyed w).
Definition set_notifications (f : list Notification.t → list Notification.t) (w : World) : World :=
  mkWorld (stories w) (posts w) (storyviews w) (likes w) (follows w)
          (f (notifications w)) (destroyed w).
Definition set_destroyed (f : list string → list string) (w : World) : World :=
  mkWorld (stories w) (posts w) (storyviews w) (likes w) (follows w)
          (notifications w) (f (destroyed w)).

(** ** Asynchronous code: state plus exceptions

    An [async] body runs on the world and either resolves to a value or
    rejects with an exception.  The world reached so far is kept in both
    cases: nothing is rolled back when a later step throws. *)

Inductive Exn :=
| TypeError (msg : string)
| CloudinaryError (public_id : string).

Definition Async (A : Type) : Type := World → (Exn + A) * World.

Definition resolve {A} (a : A) : Async A := λ w, (inr a, w).
Definition reject {A} (e : Exn) : Async A := λ w, (inl e, w).
Definition and_then {A B} (m : Async A) (k : A → Async B) : Async B :=
  λ w, match m w with
       | (inl e, w') => (inl e, w')
       | (inr a, w') => k a w'
       end.

Notation "'await' x ⇐ m ; k" := (and_then m (λ x, k))
  (at level 100, x name, m at next level, k at level 200, right associativity,
   format "'[v' 'await'  x  ⇐  m ; '/' k ']'").

(** ** HTTP responses *)

Inductive Json :=
| JMessage (message : string)                    (* { message: ... } *)
| JError (error : string)                        (* { error: ... } *)
| JErrors (errors : list string)                 (* { errors: [...] } *)
| JStories (docs : list (ObjectId * Story.t)).   (* an array of stories *)

Record Response := res { status : Z; body : Json }.

(** [res.status(c).json(b)] and [res.json(b)] *)
Definition res_status_json (c : Z) (b : Json) : Async Response := resolve (res c b).
Definition res_json (b : Json) : Async Response := resolve (res 200 b).

Definition Handler := World → Response * World.

(** [try { body } catch (error) { res.status(500).json({ error: 'Server error' }) }] *)
Definition try_catch (body : Async Response) : Handler :=
  λ w, match body w with
       | (inl _, w') => (res 500 (JError "Server error"), w')
       | (inr r, w') => (r, w')
       end.

(** ** Names that a module does not bind

    Evaluating an identifier that is not bound in scope throws a
    ReferenceError.  Thrown outside the [try] block of a handler it is not
    turned into a 500 answer by the handler's [catch]: the handler is left
    without an answer, with the store as it was. *)

Inductive Uncaught :=
| ReferenceError (identifier : string).      (* "<identifier> is not defined" *)

Inductive Outcome (R : Type) :=
| Answered (r : R)
| Threw (e : Uncaught).
Arguments Answered {R} r.
Arguments Threw {R} e.

Definition unbound_identifier {S R : Type} (identifier : string) : S → Outcome R * S :=
  λ s, (Threw (ReferenceError identifier), s).

(** ** Store and media-service operations *)

Definition Story_findById (id : ObjectId) : Async (option Story.t) :=
  λ w, (inr (stories w !! id), w).
Definition Story_find (P : Story.t → Prop) `{∀ s, Decision (P s)}
  : Async (list (ObjectId * Story.t)) :=
  λ w, (inr (filter (λ d, P d.2) (map_to_list (stories w))), w).
(** [story.remove()], for the document found under [id]. *)
Definition Story_remove (id : ObjectId) : Async unit :=
  λ w, (inr (), set_stories (delete id) w).
Definition Story_updateMany (P : Story.t → Prop) `{∀ s, Decision (P s)}
    (update : Story.t → Story.t) : Async unit :=
  λ w, (inr (), set_stories (fmap (λ s, if decide (P s) then update s else s)) w).

Definition Post_findById (id : ObjectId) : Async (option Post.t) :=
  λ w, (inr (posts w !! id), w).
Definition Post_remove (id : ObjectId) : Async unit :=
  λ w, (inr (), set_posts (delete id) w).

Definition StoryView_create (v : StoryView.t) : Async unit :=
  λ w, (inr (), set_storyviews (λ l, l ++ [v]) w).
Definition Notification_create (n : Notification.t) : Async unit :=
  λ w, (inr (), set_notifications (λ l, l ++ [n]) w).

Definition Follow_find (P : Follow.t → Prop) `{∀ x, Decision (P x)} : Async (list Follow.t) :=
  λ w, (inr (filter P (follows w)), w).

Section Handlers.

(** The media service is external: [destroy_rejects public_id] tells
    whether the promise of [cloudinary.uploader.destroy(public_id)]
    rejects. *)
Variable destroy_rejects : string → bool.

Definition cloudinary_uploader_destroy (public_id : string) : Async unit :=
  λ w, let w' := set_destroyed (λ l, l ++ [public_id]) w in
       if destroy_rejects public_id
       then (inl (CloudinaryError public_id), w')
       else (inr (), w').

(** *** routes/stories.js *)

(** GET /api/stories/:userId.  [populate('userId', ...)] only decorates the
    owner field of the documents answered and is left out, here and in the
    feed. *)
Definition get_stories_userId (params_userId : ObjectId) (now : Date) : Handler :=
  try_catch (
    await found ⇐ Story_find (λ s,
        Story.userId s = params_userId ∧
        Story.isActive s = true ∧
        Story.expiresAt s > now);
    res_json (JStories found)).

(** GET /api/stories/feed *)
Definition get_stories_feed (userId : ObjectId) (now : Date) : Handler :=
  try_catch (
    await edges ⇐ Follow_find (λ f, Follow.followerId f = userId);
    let followedIds := Follow.followedId <$> edges in
    await found ⇐ Story_find (λ s,
        Story.userId s ∈ followedIds ∧
        Story.isActive s = true ∧
        Story.expiresAt s > now);
    res_json (JStories found)).

(** POST /api/stories/:id/view *)
Definition post_stories_view (userId : ObjectId) (params_id : ObjectId) (now : Date)
  : Handler :=
  try_catch (
    await story ⇐ Story_findById params_id;
    match story with
    | None => res_status_json 404 (JError "Story not found or expired")
    | Some s =>
      if negb (Story.isActive s) || bool_decide (Story.expiresAt s < now)
      then res_status_json 404 (JError "Story not found or expired")
      else
        await _ ⇐ StoryView_create (StoryView.mk params_id userId);
        await _ ⇐ Notification_create
                (Notification.mk (Story.userId s) Notification.story_view userId
                                 None (Some params_id) now);
        res_json (JMessage "View recorded")
    end).

(** DELETE /api/stories/:id *)
Definition delete_stories_id (userId : ObjectId) (params_id : ObjectId) : Handler :=
  try_catch (
    await story ⇐ Story_findById params_id;
    match story with
    | None => res_status_json 404 (JError "Story not found")
    | Some s =>
      if bool_decide (Story.userId s ≠ userId)
      then res_status_json 403 (JError "Unauthorized")
      else
        await _ ⇐ cloudinary_uploader_destroy (Story.mediaId s);
        await _ ⇐ Story_remove params_id;
        res_json (JMessage "Story deleted")
    end).

(** *** routes/posts.js *)

(** DELETE /api/posts/:id *)
Definition delete_posts_id (userId : ObjectId) (params_id : ObjectId) : Handler :=
  try_catch (
    await post ⇐ Post_findById params_id;
    match post with
    | None => res_status_json 404 (JError "Post not found")
    | Some p =>
      if bool_decide (Post.userId p ≠ userId)
      then res_status_json 403 (JError "Unauthorized")
      else
        await _ ⇐ cloudinary_uploader_destroy (Post.mediaId p);
        await _ ⇐ Post_remove params_id;
        res_json (JMessage "Post deleted")
    end).

(** *** routes/interactions.js

    Line 2 of the file is
    [const { body } = require('express-validator');] and no other line
    binds [validationResult].  Each handler of the file starts with
    [const errors = validationResult(req);], before its [try]: the call
    throws, and the statements after it (the validation answer, the
    queries, the writes, the answers of the [try] and of its [catch]) are
    not reached.  [userId] is [req.user.userId]; the other arguments are
    the fields of [req.body], as sent. *)

(** POST /api/interactions/like (lines 28-63; the call is line 33) *)
Definition post_interactions_like (userId : ObjectId) (postId : string) (now : Date)
  : World → Outcome Response * World :=
  unbound_identifier "validationResult".

(** DELETE /api/interactions/like (lines 82-102; the call is line 87) *)
Definition delete_interactions_like (userId : ObjectId) (postId : string)
  : World → Outcome Response * World :=
  unbound_identifier "validationResult".

(** POST /api/interactions/follow (lines 171-208; the call is line 176) *)
Definition post_interactions_follow (userId : ObjectId) (followedId : string) (now : Date)
  : World → Outcome Response * World :=
  unbound_identifier "validationResult".

(** DELETE /api/interactions/follow (lines 227-247; the call is line 232) *)
Definition delete_interactions_follow (userId : ObjectId) (followedId : string)
  : World → Outcome Response * World :=
  unbound_identifier "validationResult".

(** *** server.js: the story expiration job

    [cron.schedule('0 0 * * *', async () => { try { await Story.updateMany(
    { expiresAt: { $lte: new Date() } }, { isActive: false }) } catch ... })].
    The job answers nobody; its effect is the world it leaves. *)
Definition story_expiration_job (now : Date) : World → World :=
  λ w, (Story_updateMany (λ s, Story.expiresAt s ≤ now) (Story.set_isActive false) w).2.

(** *** Handlers run one after the other

    A request names a handler of the routers and the arguments it is run
    with (or a run of the job).  [GET_stories_feed] is the handler given to
    ['/feed'], which the router does not reach (see the order of the
    routes); its runs are among the traces all the same. *)

Inductive Request :=
| GET_stories_userId (params_userId : ObjectId)
| GET_stories_feed (userId : ObjectId)
| POST_stories_view (userId params_id : ObjectId)
| DELETE_stories_id (userId params_id : ObjectId)
| DELETE_posts_id (userId params_id : ObjectId)
| POST_interactions_like (userId : ObjectId) (postId : string)
| DELETE_interactions_like (userId : ObjectId) (postId : string)
| POST_interactions_follow (userId : ObjectId) (followedId : string)
| DELETE_interactions_follow (userId : ObjectId) (followedId : string)
| CRON_story_expiration.

(** The world after one handler has run (or after one run of the job) at
    time [now]; a handler that throws leaves the world it had reached. *)
Definition serve (now : Date) (r : Request) (w : World) : World :=
  match r with
  | GET_stories_userId u => (get_stories_userId u now w).2
  | GET_stories_feed u => (get_stories_feed u now w).2
  | POST_stories_view u i => (post_stories_view u i now w).2
  | DELETE_stories_id u i => (delete_stories_id u i w).2
  | DELETE_posts_id u i => (delete_posts_id u i w).2
  | POST_interactions_like u p => (post_interactions_like u p now w).2
  | DELETE_interactions_like u p => (delete_interactions_like u p w).2
  | POST_interactions_follow u f => (post_interactions_follow u f now w).2
  | DELETE_interactions_follow u f => (delete_interactions_follow u f w).2
  | CRON_story_expiration => story_expiration_job now w
  end.

Fixpoint run (trace : list (Date * Request)) (w : World) : World :=
  match trace with
  | [] => w
  | (now, r) :: trace' => run trace' (serve now r w)
  end.

End Handlers.

(** * The remaining routes

    The routes below read or write collections the world above does not
    hold (users, comments) and can fail in a way of their own (a duplicate
    key); they run on the store, the world extended with those
    collections. *)

Module Comment.
(** Modelled from the spec: the schema models/Comment.js is not among the
    sources; a comment carries the post, the author and the text, the three
    fields the comment handler gives a new document. *)
Record t := mk { postId : ObjectId; userId : ObjectId; text : string }.
End Comment.

Module User.
(** models/User.js *)
Record t := mk {
  username : string;
  email : string;
  password : string;
  profilePicture : option string;
  profilePictureId : option string;
  bio : option string;
  createdAt : Date;
}.
End User.

Record Store := mkStore {
  world : World;
  comments : list Comment.t;
  users : gmap ObjectId User.t;
}.

Definition empty_store : Store := mkStore empty_world [] ∅.

Definition set_world (f : World → World) (st : Store) : Store :=
  mkStore (f (world st)) (comments st) (users st).
Definition set_comments (f : list Comment.t → list Comment.t) (st : Store) : Store :=
  mkStore (world st) (f (comments st)) (users st).
Definition set_users (f : gmap ObjectId User.t → gmap ObjectId User.t) (st : Store) : Store :=
  mkStore (world st) (comments st) (f (users st)).

(** What a promise of these routes can reject with. *)
Inductive Failure :=
| Thrown (e : Exn)
| DuplicateKey (collection : string).    (* MongoServerError E11000 *)

Definition Task (A : Type) : Type := Store → (Failure + A) * Store.

#[global] Instance Task_ret : MRet Task := λ A a st, (inr a, st).
#[global] Instance Task_bind : MBind Task := λ A B k m st,
  match m st with
  | (inl e, st') => (inl e, st')
  | (inr a, st') => k a st'
  end.

(** An operation on the world, run on the store. *)
Definition lift {A} (m : Async A) : Task A :=
  λ st, match m (world st) with
        | (inl e, w') => (inl (Thrown e), set_world (λ _, w') st)
        | (inr a, w') => (inr a, set_world (λ _, w') st)
        end.

Inductive Payload :=
| PJson (j : Json)
| PPost (doc : ObjectId * Post.t)
| PNotifications (docs : list Notification.t)
| PToken (token : string).                     (* { token: ... } *)

Record Reply := reply { code : Z; payload : Payload }.

Definition Route := Store → Reply * Store.

(** [res.status(c).json(p)] *)
Definition send (c : Z) (p : Payload) : Task Reply := mret (reply c p).

(** [try { body } catch (error) { res.status(500).json({ error: 'Server error' }) }] *)
Definition try_catch_task (body : Task Reply) : Route :=
  λ st, match body st with
        | (inl _, st') => (reply 500 (PJson (JError "Server error")), st')
        | (inr r, st') => (r, st')
        end.

(** The validation prelude of routes/auth.js, which binds the name (its
    line 2 is [const { body, validationResult } = require('express-validator');]):
    [const errors = validationResult(req);
     if (!errors.isEmpty()) { return res.status(400).json({ errors: errors.array() }); }]
    where [errors] stands for what express-validator reports for the
    request, the failed checks of the route's chain. *)
Definition check_validation_task (errors : list string) (rest : Route) : Route :=
  λ st, match errors with
        | [] => rest st
        | _ :: _ => (reply 400 (PJson (JErrors errors)), st)
        end.

(** *** Query stages *)

(** [.sort({ createdAt: -1 })]: newest first; documents of equal date keep
    the order they had. *)
Definition newer_first {A} (key : A → Date) : relation A := λ a b, key b ≤ key a.
#[global] Instance newer_first_dec {A} (key : A → Date) : RelDecision (newer_first key).
Proof. intros a b. unfold newer_first. apply _. Defined.
Definition sort_desc {A} (key : A → Date) (l : list A) : list A :=
  merge_sort (newer_first key) l.

(** [.limit(n)] *)
Definition limit {A} (n : nat) (l : list A) : list A := take n l.

(** *** Store operations *)

Definition Notification_find_sorted (P : Notification.t → Prop) `{∀ n, Decision (P n)}
    (limited : nat) : Async (list Notification.t) :=
  λ w, (inr (limit limited (sort_desc Notification.createdAt
                              (filter P (notifications w)))), w).

Definition User_findOne (P : User.t → Prop) `{∀ u, Decision (P u)}
  : Task (option (ObjectId * User.t)) :=
  λ st, (inr (head (filter (λ d, P d.2) (map_to_list (users st)))), st).

(** [user.save()]: the schema declares [username] and [email] unique. *)
Definition User_save (_id : ObjectId) (u : User.t) : Task unit :=
  λ st, match users st !! _id,
              filter (λ d, User.username d.2 = User.username u ∨
                           User.email d.2 = User.email u) (map_to_list (users st)) with
        | None, [] => (inr (), set_users <[_id := u]> st)
        | _, _ => (inl (DuplicateKey "users"), st)
        end.

Section Routes.

Variable destroy_rejects : string → bool.

(** bcryptjs and jsonwebtoken (with the process's secret). *)
Variable bcrypt_hash : string → string → string.
Variable bcrypt_compare : string → string → bool.
Variable jwt_sign : ObjectId → Date → string.

(** *** routes/stories.js

    The file's second line is [const { body } = require('express-validator');]
    and no other line binds [validationResult]. *)

(** POST /api/stories (lines 80-120).  The handler starts with
    [const errors = validationResult(req);] (line 86), before its [try]
    (line 91): the call throws, and neither the upload nor [story.save()] is
    reached.  [caption] is the body field, [file] the path of the uploaded
    file, if any. *)
Definition post_stories (userId : ObjectId) (caption : option string) (file : option string)
    (now : Date) : Store → Outcome Reply * Store :=
  unbound_identifier "validationResult".

(** *** routes/posts.js

    Line 2 of the file is
    [const { body, query } = require('express-validator');] and no other
    line binds [validationResult]. *)

(** POST /api/posts (lines 31-71; the call is line 37, the [try] line 42) *)
Definition post_posts (userId : ObjectId) (caption : option string) (hashtags : list string)
    (file : option string) (now : Date) : Store → Outcome Reply * Store :=
  unbound_identifier "validationResult".

(** GET /api/posts/:id *)
Definition get_posts_id (params_id : ObjectId) : Route :=
  try_catch_task (
    post ← lift (Post_findById params_id);
    match post with
    | None => send 404 (PJson (JError "Post not found"))
    | Some p => send 200 (PPost (params_id, p))
    end).

(** The handler given to GET /api/posts/feed (lines 116-146; the call is
    line 121, the [try] line 126).  [query_page] and [query_limit] are the
    query values, as sent. *)
Definition get_posts_feed (userId : ObjectId) (query_page query_limit : option string)
  : Store → Outcome Reply * Store :=
  unbound_identifier "validationResult".

(** *** routes/interactions.js *)

(** POST /api/interactions/comment (lines 122-152; the call is line 127,
    the [try] line 132): [comment.save()] is not reached. *)
Definition post_interactions_comment (userId : ObjectId) (postId : string) (text : string)
    (now : Date) : Store → Outcome Reply * Store :=
  unbound_identifier "validationResult".

(** *** routes/notifications.js *)

(** GET /api/notifications *)
Definition get_notifications (userId : ObjectId) : Route :=
  try_catch_task (
    found ← lift (Notification_find_sorted (λ n, Notification.userId n = userId) 20);
    send 200 (PNotifications found)).

(** *** routes/auth.js *)

(** POST /api/auth/register.  [salt] is the value of [bcrypt.genSalt(10)],
    [_id] the ObjectId the new user is given. *)
Definition post_auth_register (errors : list string)
    (username email password : string) (salt : string) (_id : ObjectId) (now : Date)
  : Route :=
  check_validation_task errors (try_catch_task (
    user ← User_findOne (λ u, User.email u = email ∨ User.username u = username);
    match user with
    | Some _ => send 400 (PJson (JError "User already exists"))
    | None =>
      let hashedPassword := bcrypt_hash password salt in
      _ ← User_save _id (User.mk username email hashedPassword None None None now);
      send 201 (PToken (jwt_sign _id now))
    end)).

(** POST /api/auth/login *)
Definition post_auth_login (errors : list string) (email password : string) (now : Date)
  : Route :=
  check_validation_task errors (try_catch_task (
    user ← User_findOne (λ u, User.email u = email);
    match user with
    | None => send 400 (PJson (JError "Invalid credentials"))
    | Some (_id, u) =>
      if bcrypt_compare password (User.password u)
      then send 200 (PToken (jwt_sign _id now))
      else send 400 (PJson (JError "Invalid credentials"))
    end)).

(** *** Every modelled handler, run one after the other *)

Inductive Call :=
| Base (r : Request)
| POST_stories (userId : ObjectId) (caption : option string) (file : option string)
| POST_posts (userId : ObjectId) (caption : option string) (hashtags : list string)
    (file : option string)
| GET_posts_id (params_id : ObjectId)
| GET_posts_feed (userId : ObjectId) (query_page query_limit : option string)
| POST_interactions_comment (userId : ObjectId) (postId : string) (text : string)
| GET_notifications (userId : ObjectId)
| POST_auth_register (errors : list string) (username email password salt : string)
    (_id : ObjectId)
| POST_auth_login (errors : list string) (email password : string).

(** The store after one handler has run at time [now]; a handler that
    throws leaves the store it had reached. *)
Definition serve_call (now : Date) (c : Call) (st : Store) : Store :=
  match c with
  | Base r => set_world (serve destroy_rejects now r) st
  | POST_stories u c f => (post_stories u c f now st).2
  | POST_posts u c h f => (post_posts u c h f now st).2
  | GET_posts_id i => (get_posts_id i st).2
  | GET_posts_feed u p l => (get_posts_feed u p l st).2
  | POST_interactions_comment u p t => (post_interactions_comment u p t now st).2
  | GET_notifications u => (get_notifications u st).2
  | POST_auth_register e n m p s i => (post_auth_register e n m p s i now st).2
  | POST_auth_login e m p => (post_auth_login e m p now st).2
  end.

Fixpoint run_calls (trace : list (Date * Call)) (st : Store) : Store :=
  match trace with
  | [] => st
  | (now, c) :: trace' => run_calls trace' (serve_call now c st)
  end.

End Routes.

(** ** The order of the routes

    A router tries its routes in the order of their registration and runs
    the handler of the first one whose method and path match; the handlers
    of this repository answer and never call [next()], so no later route
    sees the request.  On a path of one segment, a route [/:name] matches
    every segment, which becomes [req.params.name], a string; a route of a
    fixed segment matches that segment, whatever the case of its letters. *)

Inductive Pattern :=
| Param                          (* '/:name' *)
| Literal (segment : string).    (* '/segment' *)

Definition to_lower (c : Ascii.ascii) : Ascii.ascii :=
  let n := Ascii.nat_of_ascii c in
  if ((65 <=? n) && (n <=? 90))%nat then Ascii.ascii_of_nat (n + 32) else c.

Fixpoint lowercase (s : string) : string :=
  match s with
  | EmptyString => EmptyString
  | String c s' => String (to_lower c) (lowercase s')
  end.

Definition matches (p : Pattern) (segment : string) : bool :=
  match p with
  | Param => negb (String.eqb segment "")
  | Literal l => String.eqb (lowercase l) (lowercase segment)
  end.

(** The handler run for a path of one segment, on the routes of one method
    in registration order; [None] when no route matches. *)
Fixpoint dispatch {H : Type} (routes : list (Pattern * (string → H))) (segment : string)
  : option H :=
  match routes with
  | [] => None
  | (p, h) :: routes' =>
    if matches p segment then Some (h segment) else dispatch routes' segment
  end.

(** A path segment used as an ObjectId in the first query of a handler,
    inside its [try]: mongoose casts the string ([castObjectId], [None] for
    a string that is no ObjectId); when the cast fails the query rejects
    with a CastError, before any read or write, and the [catch] answers
    [error]. *)
Definition by_segment {S R : Type} (castObjectId : string → option ObjectId) (error : R)
    (segment : string) (h : ObjectId → S → R * S) : S → R * S :=
  match castObjectId segment with
  | Some id => h id
  | None => λ s, (error, s)
  end.

(** A handler that answers, among handlers that may throw. *)
Definition answers {S R : Type} (h : S → R * S) : S → Outcome R * S :=
  λ s, (Answered (h s).1, (h s).2).

Section Routers.

Variable castObjectId : string → option ObjectId.

(** The GET routes of routes/stories.js, in the order of the file:
    [router.get('/:userId', ...)] (line 135), then [router.get('/feed', ...)]
    (line 158).  [userId] is the authenticated user. *)
Definition stories_GET_routes (userId : ObjectId) (now : Date)
  : list (Pattern * (string → Handler)) :=
  [ (Param, λ params_userId,
       by_segment castObjectId (res 500 (JError "Server error")) params_userId
                  (λ id, get_stories_userId id now));
    (Literal "feed", λ _, get_stories_feed userId now) ].

(** GET /api/stories/<segment> *)
Definition GET_api_stories (userId : ObjectId) (now : Date) (segment : string)
  : option Handler :=
  dispatch (stories_GET_routes userId now) segment.

(** POST /api/stories/<segment>/view, the only POST route of that shape. *)
Definition POST_api_stories_view (userId : ObjectId) (now : Date) (segment : string)
  : Handler :=
  by_segment castObjectId (res 500 (JError "Server error")) segment
             (λ id, post_stories_view userId id now).

(** The GET routes of routes/posts.js on a path of one segment, in the
    order of the file: [router.get('/:id', ...)] (line 87), then
    [router.get('/feed', ...)] (line 116). *)
Definition posts_GET_routes (userId : ObjectId) (query_page query_limit : option string)
  : list (Pattern * (string → Store → Outcome Reply * Store)) :=
  [ (Param, λ params_id,
       answers (by_segment castObjectId (reply 500 (PJson (JError "Server error")))
                           params_id get_posts_id));
    (Literal "feed", λ _, get_posts_feed userId query_page query_limit) ].

(** GET /api/posts/<segment> *)
Definition GET_api_posts (userId : ObjectId) (query_page query_limit : option string)
    (segment : string) : option (Store → Outcome Reply * Store) :=
  dispatch (posts_GET_routes userId query_page query_limit) segment.

End Routers.

(** The ObjectId of its 24-digit hexadecimal form, the form ids have in
    paths; [None] for any other string. *)
Definition hex_digit (c : Ascii.ascii) : option N :=
  let n := Ascii.N_of_ascii c in
  if ((48 <=? n) && (n <=? 57))%N then Some (n - 48)%N
  else if ((97 <=? n) && (n <=? 102))%N then Some (n - 87)%N
  else if ((65 <=? n) && (n <=? 70))%N then Some (n - 55)%N
  else None.

Fixpoint hex_value (s : string) (acc : N) : option N :=
  match s with
  | EmptyString => Some acc
  | String c s' =>
    match hex_digit c with
    | Some d => hex_value s' (16 * acc + d)%N
    | None => None
    end
  end.

Definition ObjectId_of_hex (s : string) : option ObjectId :=
  if (String.length s =? 24)%nat then hex_value s 0%N else None.

(** *** Observations on stores *)

(** No two users share a username or an email. *)
Definition users_unique (st : Store) : Prop :=
  ∀ i j u v, users st !! i = Some u → users st !! j = Some v →
    (User.username u = User.username v ∨ User.email u = User.email v) → i = j.

(** The notifications a reply carries ([[]] for any other payload). *)
Definition notifications_of (r : Reply) : list Notification.t :=
  match payload r with
  | PNotifications docs => docs
  | _ => []
  end.

(** *** Proof automation for routes *)

Ltac run_route :=
  unfold check_validation_task, try_catch_task, send, lift, User_findOne, User_save,
    Notification_find_sorted, Post_findById, Follow_find, Notification_create, resolve, reject;
  unfold mbind, Task_bind, mret, Task_ret; simpl.

Ltac route_cases :=
  run_route; repeat case_match; simplify_eq/=; try done.

(** ** Observations on answers and worlds *)

(** The stories a response carries ([[]] for any other body). *)
Definition docs_of (r : Response) : list (ObjectId * Story.t) :=
  match body r with
  | JStories docs => docs
  | _ => []
  end.

(** ** Proof automation *)

Ltac run_handler :=
  unfold try_catch, and_then, res_status_json, res_json, resolve, reject,
    Story_findById, Story_remove, Post_findById, Post_remove, StoryView_create,
    Notification_create; simpl.

Ltac handler_cases :=
  run_handler; unfold Story_find, Follow_find, Story_updateMany,
    cloudinary_uploader_destroy; simpl;
  repeat case_match; simplify_eq/=; try done.

(** ** Properties of the store operations *)

Section StoreFacts.

Lemma Story_find_spec (P : Story.t → Prop) `{∀ s, Decision (P s)} (w : World) :
  ∃ found, Story_find P w = (inr found, w) ∧ NoDup found ∧
    ∀ id s, (id, s) ∈ found ↔ stories w !! id = Some s ∧ P s.
Proof.
  eexists; split; [reflexivity|]. split.
  - apply NoDup_filter, NoDup_map_to_list.
  - intros id s. rewrite list_elem_of_filter, elem_of_map_to_list. simpl. tauto.
Qed.

Lemma followedIds_spec (viewer x : ObjectId) (edges : list Follow.t) :
  x ∈ Follow.followedId <$> filter (λ f, Follow.followerId f = viewer) edges
  ↔ Follow.mk viewer x ∈ edges.
Proof.
  rewrite list_elem_of_fmap. split.
  - intros ([a b] & -> & Hf). apply list_elem_of_filter in Hf as [Ha Hin].
    simpl in Ha. by subst a.
  - intros Hin. exists (Follow.mk viewer x). split; [done|].
    by apply list_elem_of_filter.
Qed.

End StoreFacts.

(** ** Story reads *)

Lemma get_stories_userId_spec (owner : ObjectId) (now : Date) (w : World) :
  ∃ found, get_stories_userId owner now w = (res 200 (JStories found), w) ∧
    NoDup found ∧
    ∀ id s, (id, s) ∈ found ↔
      stories w !! id = Some s ∧ Story.userId s = owner ∧
      Story.isActive s = true ∧ Story.expiresAt s > now.
Proof.
  unfold get_stories_userId, try_catch, and_then.
  edestruct (Story_find_spec (λ s, Story.userId s = owner ∧
      Story.isActive s = true ∧ Story.expiresAt s > now) w) as (found & -> & Hnd & Hin).
  exists found. simpl. split; [done|]. split; [done|]. intros id s. by rewrite Hin.
Qed.

Lemma get_stories_feed_spec (viewer : ObjectId) (now : Date) (w : World) :
  ∃ found, get_stories_feed viewer now w = (res 200 (JStories found), w) ∧
    NoDup found ∧
    ∀ id s, (id, s) ∈ found ↔
      stories w !! id = Some s ∧ Follow.mk viewer (Story.userId s) ∈ follows w ∧
      Story.isActive s = true ∧ Story.expiresAt s > now.
Proof.
  unfold get_stories_feed, try_catch, and_then, Follow_find.
  set (followedIds := Follow.followedId <$> _).
  edestruct (Story_find_spec (λ s, Story.userId s ∈ followedIds ∧
      Story.isActive s = true ∧ Story.expiresAt s > now) w) as (found & -> & Hnd & Hin).
  exists found. simpl. split; [done|]. split; [done|]. intros id s.
  rewrite Hin. unfold followedIds. by rewrite followedIds_spec.
Qed.

(** C1. A story of the store is returned by the owner's story list (GET
    /api/stories/:userId) and by the feed (GET /api/stories/feed) exactly
    when, besides the owner condition of the route, [isActive] is true and
    [expiresAt > now]; hence a story whose [expiresAt] lies strictly before
    [now] is returned by neither read, whatever its [isActive] flag. *)
Theorem C1_reads_apply_visibility (w : World) (now : Date) (id : ObjectId) (s : Story.t) :
  (∀ owner,
      status (get_stories_userId owner now w).1 = 200 ∧
      ((id, s) ∈ docs_of (get_stories_userId owner now w).1 ↔
       stories w !! id = Some s ∧ Story.userId s = owner ∧
       (Story.isActive s = true ∧ Story.expiresAt s > now))) ∧
  (∀ viewer,
      status (get_stories_feed viewer now w).1 = 200 ∧
      ((id, s) ∈ docs_of (get_stories_feed viewer now w).1 ↔
       stories w !! id = Some s ∧ Follow.mk viewer (Story.userId s) ∈ follows w ∧
       (Story.isActive s = true ∧ Story.expiresAt s > now))) ∧
  (now > Story.expiresAt s →
   ∀ u, ((id, s) ∉ docs_of (get_stories_userId u now w).1) ∧
        ((id, s) ∉ docs_of (get_stories_feed u now w).1)).
Proof.
  split; [|split].
  - intros owner. destruct (get_stories_userId_spec owner now w) as (found & -> & _ & Hin).
    simpl. split; [done|]. unfold docs_of; simpl. by rewrite Hin.
  - intros viewer. destruct (get_stories_feed_spec viewer now w) as (found & -> & _ & Hin).
    simpl. split; [done|]. unfold docs_of; simpl. by rewrite Hin.
  - intros Hlate u.
    destruct (get_stories_userId_spec u now w) as (f1 & -> & _ & H1).
    destruct (get_stories_feed_spec u now w) as (f2 & -> & _ & H2).
    unfold docs_of; simpl. rewrite H1, H2. split; intros (_ & _ & _ & Hgt); lia.
Qed.

Lemma C1_reads_apply_visibility_witness :
  let s := Story.mk 2 "https://media/m1" "stories/2/m1" None 0 1000 true in
  let w := mkWorld {[ 7%N := s ]} ∅ [] [] [Follow.mk 1 2] [] [] in
  1001 > Story.expiresAt s ∧
  ∀ u, ((7%N, s) ∉ docs_of (get_stories_userId u 1001 w).1) ∧
       ((7%N, s) ∉ docs_of (get_stories_feed u 1001 w).1).
Proof.
  intros s w. split; [simpl; lia|].
  apply (C1_reads_apply_visibility w 1001 7%N s). simpl. lia.
Defined.

(** ** Recording a view *)

Lemma post_stories_view_recorded (viewer id : ObjectId) (now : Date) (w : World) (s : Story.t) :
  stories w !! id = Some s →
  Story.isActive s = true →
  ¬ Story.expiresAt s < now →
  post_stories_view viewer id now w =
    (res 200 (JMessage "View recorded"),
     set_notifications
       (λ l, l ++ [Notification.mk (Story.userId s) Notification.story_view viewer
                                   None (Some id) now])
       (set_storyviews (λ l, l ++ [StoryView.mk id viewer]) w)).
Proof.
  intros Hs Hact Hexp. unfold post_stories_view. run_handler.
  rewrite Hs, Hact. simpl. by rewrite bool_decide_eq_false_2.
Qed.

Lemma post_stories_view_not_found (viewer id : ObjectId) (now : Date) (w : World) :
  (stories w !! id = None ∨
   ∃ s, stories w !! id = Some s ∧ (Story.isActive s = false ∨ Story.expiresAt s < now)) →
  post_stories_view viewer id now w =
    (res 404 (JError "Story not found or expired"), w).
Proof.
  unfold post_stories_view. run_handler.
  intros [-> | (s & -> & [-> | Hlt])]; [done|done|].
  by rewrite bool_decide_eq_true_2, orb_true_r.
Qed.

(** The view handler answers 404 exactly when the story is missing, or
    inactive, or [expiresAt < now]; in every other case it answers 200. *)
Lemma post_stories_view_404_iff (viewer id : ObjectId) (now : Date) (w : World) :
  status (post_stories_view viewer id now w).1 = 404 ↔
  (stories w !! id = None ∨
   ∃ s, stories w !! id = Some s ∧ (Story.isActive s = false ∨ Story.expiresAt s < now)).
Proof.
  split.
  - intros H404. destruct (stories w !! id) as [s|] eqn:Hs; [|by left].
    right. exists s. split; [done|].
    destruct (Story.isActive s) eqn:Hact; [|by left].
    destruct (decide (Story.expiresAt s < now)) as [|Hge]; [by right|].
    rewrite (post_stories_view_recorded viewer id now w s Hs Hact Hge) in H404.
    discriminate H404.
  - intros H. by rewrite post_stories_view_not_found.
Qed.

(** C2, evaluated at the boundary. A story that is active and whose
    [expiresAt] is 1000 is viewed at [now = 1000]: the visibility predicate
    (isActive and expiresAt > now) is false and both reads leave the story
    out, yet the view handler answers 200, stores a view row and notifies
    the owner. *)
Theorem C2_view_at_expiry_instant_recorded :
  let s := Story.mk 2 "https://media/m1" "stories/2/m1" None 0 1000 true in
  let w := mkWorld {[ 7%N := s ]} ∅ [] [] [Follow.mk 1 2] [] [] in
  ¬ (Story.isActive s = true ∧ Story.expiresAt s > 1000) ∧
  docs_of (get_stories_userId 2 1000 w).1 = [] ∧
  docs_of (get_stories_feed 1 1000 w).1 = [] ∧
  post_stories_view 1 7 1000 w =
    (res 200 (JMessage "View recorded"),
     mkWorld {[ 7%N := s ]} ∅ [StoryView.mk 7 1] [] [Follow.mk 1 2]
             [Notification.mk 2 Notification.story_view 1 None (Some 7%N) 1000] []).
Proof.
  intros s w. split; [simpl; lia|]. by vm_compute.
Qed.

(** C9. A view that succeeds (answer 200) is a view of a story of the store
    and adds exactly one StoryView row and exactly one [story_view]
    notification, addressed to the story's owner with [fromUserId] the
    viewer, and nothing else; a view of an active story with
    [expiresAt > now] does succeed, also a second time, so that two views by
    the same viewer leave two rows and two notifications. *)
Theorem C9_view_inserts_row_and_notification
    (viewer id : ObjectId) (now : Date) (w : World) :
  (status (post_stories_view viewer id now w).1 = 200 →
   ∃ s, stories w !! id = Some s ∧
     (post_stories_view viewer id now w).2 =
       set_notifications
         (λ l, l ++ [Notification.mk (Story.userId s) Notification.story_view viewer
                                     None (Some id) now])
         (set_storyviews (λ l, l ++ [StoryView.mk id viewer]) w)) ∧
  (∀ s now2,
     stories w !! id = Some s → Story.isActive s = true →
     Story.expiresAt s > now → Story.expiresAt s > now2 →
     let once := post_stories_view viewer id now w in
     let twice := post_stories_view viewer id now2 once.2 in
     status once.1 = 200 ∧ status twice.1 = 200 ∧
     storyviews twice.2 =
       storyviews w ++ [StoryView.mk id viewer; StoryView.mk id viewer] ∧
     notifications twice.2 =
       notifications w ++
         [Notification.mk (Story.userId s) Notification.story_view viewer None (Some id) now;
          Notification.mk (Story.userId s) Notification.story_view viewer None (Some id) now2]).
Proof.
  split.
  - intros H200.
    destruct (stories w !! id) as [s|] eqn:Hs.
    + exists s. split; [done|].
      destruct (Story.isActive s) eqn:Hact.
      * destruct (decide (Story.expiresAt s < now)) as [Hlt|Hge].
        -- rewrite post_stories_view_not_found in H200 by eauto. discriminate H200.
        -- by rewrite (post_stories_view_recorded viewer id now w s).
      * rewrite post_stories_view_not_found in H200 by eauto. discriminate H200.
    + rewrite post_stories_view_not_found in H200 by eauto. discriminate H200.
  - intros s now2 Hs Hact Hnow Hnow2 once twice. subst twice once.
    rewrite (post_stories_view_recorded viewer id now w s) by (done || lia).
    rewrite (post_stories_view_recorded viewer id now2 _ s) by (done || lia).
    simpl. by rewrite <- !app_assoc.
Qed.

Lemma C9_view_inserts_row_and_notification_witness :
  let s := Story.mk 2 "https://media/m1" "stories/2/m1" None 0 1000 true in
  let w := mkWorld {[ 7%N := s ]} ∅ [] [] [Follow.mk 1 2] [] [] in
  (stories w !! 7%N = Some s ∧ Story.isActive s = true ∧
   Story.expiresAt s > 10 ∧ Story.expiresAt s > 20 ∧
   status (post_stories_view 1 7 10 w).1 = 200) ∧
  (∃ s', stories w !! 7%N = Some s' ∧
     (post_stories_view 1 7 10 w).2 =
       set_notifications
         (λ l, l ++ [Notification.mk (Story.userId s') Notification.story_view 1
                                     None (Some 7%N) 10])
         (set_storyviews (λ l, l ++ [StoryView.mk 7 1]) w)) ∧
  storyviews (post_stories_view 1 7 20 (post_stories_view 1 7 10 w).2).2 =
    [StoryView.mk 7 1; StoryView.mk 7 1] ∧
  notifications (post_stories_view 1 7 20 (post_stories_view 1 7 10 w).2).2 =
    [Notification.mk 2 Notification.story_view 1 None (Some 7%N) 10;
     Notification.mk 2 Notification.story_view 1 None (Some 7%N) 20].
Proof.
  intros s w.
  assert (Hs : stories w !! 7%N = Some s) by reflexivity.
  assert (H200 : status (post_stories_view 1 7 10 w).1 = 200) by reflexivity.
  split; [repeat split; simpl; lia|].
  split.
  - exact (proj1 (C9_view_inserts_row_and_notification 1 7 10 w) H200).
  - destruct (proj2 (C9_view_inserts_row_and_notification 1 7 10 w) s 20 Hs
                eq_refl ltac:(simpl; lia) ltac:(simpl; lia)) as (_ & _ & Hv & Hn).
    split; [exact Hv | exact Hn].
Defined.

(** ** Deleting a story or a post *)

Section Delete.

Variable destroy_rejects : string → bool.

Lemma delete_stories_id_not_found (userId id : ObjectId) (w : World) :
  stories w !! id = None →
  delete_stories_id destroy_rejects userId id w =
    (res 404 (JError "Story not found"), w).
Proof. intros Hs. unfold delete_stories_id. run_handler. by rewrite Hs. Qed.

Lemma delete_stories_id_forbidden (userId id : ObjectId) (w : World) (s : Story.t) :
  stories w !! id = Some s → Story.userId s ≠ userId →
  delete_stories_id destroy_rejects userId id w =
    (res 403 (JError "Unauthorized"), w).
Proof.
  intros Hs Hne. unfold delete_stories_id. run_handler.
  by rewrite Hs, bool_decide_eq_true_2.
Qed.

Lemma delete_stories_id_deleted (id : ObjectId) (w : World) (s : Story.t) :
  stories w !! id = Some s → destroy_rejects (Story.mediaId s) = false →
  delete_stories_id destroy_rejects (Story.userId s) id w =
    (res 200 (JMessage "Story deleted"),
     set_stories (delete id) (set_destroyed (λ l, l ++ [Story.mediaId s]) w)).
Proof.
  intros Hs Hok. unfold delete_stories_id. run_handler.
  rewrite Hs, bool_decide_eq_false_2 by naive_solver.
  unfold cloudinary_uploader_destroy. by rewrite Hok.
Qed.

Lemma delete_stories_id_destroy_rejected (id : ObjectId) (w : World) (s : Story.t) :
  stories w !! id = Some s → destroy_rejects (Story.mediaId s) = true →
  delete_stories_id destroy_rejects (Story.userId s) id w =
    (res 500 (JError "Server error"),
     set_destroyed (λ l, l ++ [Story.mediaId s]) w).
Proof.
  intros Hs Hko. unfold delete_stories_id. run_handler.
  rewrite Hs, bool_decide_eq_false_2 by naive_solver.
  unfold cloudinary_uploader_destroy. by rewrite Hko.
Qed.

Lemma delete_posts_id_deleted (id : ObjectId) (w : World) (p : Post.t) :
  posts w !! id = Some p → destroy_rejects (Post.mediaId p) = false →
  delete_posts_id destroy_rejects (Post.userId p) id w =
    (res 200 (JMessage "Post deleted"),
     set_posts (delete id) (set_destroyed (λ l, l ++ [Post.mediaId p]) w)).
Proof.
  intros Hp Hok. unfold delete_posts_id. run_handler.
  rewrite Hp, bool_decide_eq_false_2 by naive_solver.
  unfold cloudinary_uploader_destroy. by rewrite Hok.
Qed.

Lemma delete_posts_id_destroy_rejected (id : ObjectId) (w : World) (p : Post.t) :
  posts w !! id = Some p → destroy_rejects (Post.mediaId p) = true →
  delete_posts_id destroy_rejects (Post.userId p) id w =
    (res 500 (JError "Server error"),
     set_destroyed (λ l, l ++ [Post.mediaId p]) w).
Proof.
  intros Hp Hko. unfold delete_posts_id. run_handler.
  rewrite Hp, bool_decide_eq_false_2 by naive_solver.
  unfold cloudinary_uploader_destroy. by rewrite Hko.
Qed.

End Delete.

(** C6. Deleting a story answers 404 when no story has the id and 403 when
    the requester is not the story's owner, the world being left as it was
    in both cases; for the owner, when the media service's [destroy]
    resolves, the handler answers 200, has called [destroy] once, with the
    story's [mediaId], and has removed the story: it is no longer found by
    id nor returned by any read, and no other collection has changed.  The
    answer is 200 in that case only. *)
Theorem C6_delete_story
    (destroy_rejects : string → bool) (requester id : ObjectId) (w : World) :
  (stories w !! id = None →
   delete_stories_id destroy_rejects requester id w =
     (res 404 (JError "Story not found"), w)) ∧
  (∀ s, stories w !! id = Some s → Story.userId s ≠ requester →
   delete_stories_id destroy_rejects requester id w =
     (res 403 (JError "Unauthorized"), w)) ∧
  (∀ s, stories w !! id = Some s → Story.userId s = requester →
   destroy_rejects (Story.mediaId s) = false →
   let r := (delete_stories_id destroy_rejects requester id w).1 in
   let w' := (delete_stories_id destroy_rejects requester id w).2 in
   r = res 200 (JMessage "Story deleted") ∧
   destroyed w' = destroyed w ++ [Story.mediaId s] ∧
   stories w' = delete id (stories w) ∧
   (Story_findById id w').1 = inr None ∧
   (∀ u now s', ((id, s') ∉ docs_of (get_stories_userId u now w').1) ∧
                ((id, s') ∉ docs_of (get_stories_feed u now w').1)) ∧
   posts w' = posts w ∧ storyviews w' = storyviews w ∧ likes w' = likes w ∧
   follows w' = follows w ∧ notifications w' = notifications w) ∧
  (status (delete_stories_id destroy_rejects requester id w).1 = 200 ↔
   ∃ s, stories w !! id = Some s ∧ Story.userId s = requester ∧
        destroy_rejects (Story.mediaId s) = false).
Proof.
  split; [|split; [|split]].
  - apply delete_stories_id_not_found.
  - intros s. apply delete_stories_id_forbidden.
  - intros s Hs <- Hok r w'. subst r w'.
    rewrite (delete_stories_id_deleted destroy_rejects id w s Hs Hok).
    set (w' := set_stories _ _).
    assert (Hgone : stories w' !! id = None) by apply lookup_delete_eq.
    cbn [fst snd]. split; [done|]. split; [done|]. split; [done|].
    split; [unfold Story_findById; cbn [fst]; by rewrite Hgone|].
    split; [|done].
    intros u now s'.
    destruct (get_stories_userId_spec u now w') as (f1 & -> & _ & H1).
    destruct (get_stories_feed_spec u now w') as (f2 & -> & _ & H2).
    unfold docs_of; cbn [fst body]. rewrite H1, H2, Hgone.
    split; intros [Hsome _]; discriminate Hsome.
  - split.
    + intros H200. destruct (stories w !! id) as [s|] eqn:Hs.
      * exists s. split; [done|].
        destruct (decide (Story.userId s = requester)) as [<-|Hne].
        -- split; [done|]. destruct (destroy_rejects (Story.mediaId s)) eqn:Hd; [|done].
           rewrite (delete_stories_id_destroy_rejected destroy_rejects id w s Hs Hd) in H200.
           discriminate H200.
        -- rewrite (delete_stories_id_forbidden destroy_rejects requester id w s Hs Hne)
             in H200. discriminate H200.
      * rewrite (delete_stories_id_not_found destroy_rejects requester id w Hs) in H200.
        discriminate H200.
    + intros (s & Hs & <- & Hok).
      by rewrite (delete_stories_id_deleted destroy_rejects id w s Hs Hok).
Qed.

Lemma C6_delete_story_witness :
  let s := Story.mk 2 "https://media/m1" "stories/2/m1" None 0 1000 true in
  let w := mkWorld {[ 7%N := s ]} ∅ [] [] [Follow.mk 1 2] [] [] in
  let up := λ _ : string, false in
  (stories w !! 8%N = None ∧
   delete_stories_id up 2 8 w = (res 404 (JError "Story not found"), w)) ∧
  (stories w !! 7%N = Some s ∧ Story.userId s ≠ 1%N ∧
   delete_stories_id up 1 7 w = (res 403 (JError "Unauthorized"), w)) ∧
  (Story.userId s = 2%N ∧ up (Story.mediaId s) = false ∧
   (delete_stories_id up 2 7 w).1 = res 200 (JMessage "Story deleted") ∧
   destroyed (delete_stories_id up 2 7 w).2 = ["stories/2/m1"] ∧
   (Story_findById 7 (delete_stories_id up 2 7 w).2).1 = inr None).
Proof.
  intros s w up.
  assert (H8 : stories w !! 8%N = None) by reflexivity.
  assert (H7 : stories w !! 7%N = Some s) by reflexivity.
  assert (Hne : Story.userId s ≠ 1%N) by (simpl; lia).
  split; [|split].
  - split; [exact H8|]. exact (proj1 (C6_delete_story up 2 8 w) H8).
  - split; [exact H7|]. split; [exact Hne|].
    exact (proj1 (proj2 (C6_delete_story up 1 7 w)) s H7 Hne).
  - destruct (proj1 (proj2 (proj2 (C6_delete_story up 2 7 w))) s H7 eq_refl eq_refl)
      as (Hr & Hd & _ & Hf & _).
    split; [reflexivity|]. split; [reflexivity|].
    split; [exact Hr|]. split; [exact Hd | exact Hf].
Defined.

(** C3, as stated, fails: the owner deletes a story while the media
    service's [destroy] rejects; the handler answers 500 and the story is
    still in the store. *)
Lemma C3_destroy_failure_counterexample :
  let s := Story.mk 2 "https://media/m1" "stories/2/m1" None 0 1000 true in
  let w := mkWorld {[ 7%N := s ]} ∅ [] [] [] [] [] in
  let down := λ _ : string, true in
  stories w !! 7%N = Some s ∧ Story.userId s = 2%N ∧
  down (Story.mediaId s) = true ∧
  (delete_stories_id down 2 7 w).1 = res 500 (JError "Server error") ∧
  ¬ (stories (delete_stories_id down 2 7 w).2 !! 7%N = None).
Proof. intros s w down. by vm_compute. Qed.

(** C3, amended. When the requester is the owner and the media service's
    [destroy] rejects, deleting a story, or a post, is aborted: the handler
    answers 500 and every collection is as before, the record included; the
    owner's record is removed exactly when [destroy] resolves. *)
Theorem C3_destroy_failure_aborts_deletion
    (destroy_rejects : string → bool) (id : ObjectId) (w : World) :
  (∀ s, stories w !! id = Some s →
     (destroy_rejects (Story.mediaId s) = true →
      delete_stories_id destroy_rejects (Story.userId s) id w =
        (res 500 (JError "Server error"),
         set_destroyed (λ l, l ++ [Story.mediaId s]) w)) ∧
     (stories (delete_stories_id destroy_rejects (Story.userId s) id w).2 !! id = None ↔
      destroy_rejects (Story.mediaId s) = false)) ∧
  (∀ p, posts w !! id = Some p →
     (destroy_rejects (Post.mediaId p) = true →
      delete_posts_id destroy_rejects (Post.userId p) id w =
        (res 500 (JError "Server error"),
         set_destroyed (λ l, l ++ [Post.mediaId p]) w)) ∧
     (posts (delete_posts_id destroy_rejects (Post.userId p) id w).2 !! id = None ↔
      destroy_rejects (Post.mediaId p) = false)).
Proof.
  split.
  - intros s Hs. split; [by apply delete_stories_id_destroy_rejected|].
    destruct (destroy_rejects (Story.mediaId s)) eqn:Hd.
    + rewrite (delete_stories_id_destroy_rejected destroy_rejects id w s Hs Hd).
      simpl. rewrite Hs. naive_solver.
    + rewrite (delete_stories_id_deleted destroy_rejects id w s Hs Hd).
      simpl. by rewrite lookup_delete_eq.
  - intros p Hp. split; [by apply delete_posts_id_destroy_rejected|].
    destruct (destroy_rejects (Post.mediaId p)) eqn:Hd.
    + rewrite (delete_posts_id_destroy_rejected destroy_rejects id w p Hp Hd).
      simpl. rewrite Hp. naive_solver.
    + rewrite (delete_posts_id_deleted destroy_rejects id w p Hp Hd).
      simpl. by rewrite lookup_delete_eq.
Qed.

Lemma C3_destroy_failure_aborts_deletion_witness :
  let s := Story.mk 2 "https://media/m1" "stories/2/m1" None 0 1000 true in
  let p := Post.mk 2 "https://media/p1" "posts/2/p1" None [] 0 in
  let w := mkWorld {[ 7%N := s ]} {[ 7%N := p ]} [] [] [] [] [] in
  let down := λ _ : string, true in
  (stories w !! 7%N = Some s ∧ down (Story.mediaId s) = true ∧
   delete_stories_id down 2 7 w =
     (res 500 (JError "Server error"), set_destroyed (λ l, l ++ ["stories/2/m1"]) w)) ∧
  (posts w !! 7%N = Some p ∧ down (Post.mediaId p) = true ∧
   delete_posts_id down 2 7 w =
     (res 500 (JError "Server error"), set_destroyed (λ l, l ++ ["posts/2/p1"]) w)).
Proof.
  intros s p w down.
  assert (Hs : stories w !! 7%N = Some s) by reflexivity.
  assert (Hp : posts w !! 7%N = Some p) by reflexivity.
  split.
  - split; [exact Hs|]. split; [reflexivity|].
    exact (proj1 (proj1 (C3_destroy_failure_aborts_deletion down 7 w) s Hs) eq_refl).
  - split; [exact Hp|]. split; [reflexivity|].
    exact (proj1 (proj2 (C3_destroy_failure_aborts_deletion down 7 w) p Hp) eq_refl).
Defined.

(** ** The story expiration job *)

Lemma expire_twice (now : Date) (s : Story.t) :
  let expire := λ s, if decide (Story.expiresAt s ≤ now)
                     then Story.set_isActive false s else s in
  expire (expire s) = expire s.
Proof.
  simpl. destruct (decide (Story.expiresAt s ≤ now)) as [Hle|Hgt].
  - simpl. by rewrite decide_True.
  - by rewrite decide_False.
Qed.

(** C4. One run of the expiration job at [now] leaves every story with
    [expiresAt <= now] with [isActive = false] and its other fields as they
    were, leaves every story with [expiresAt > now] as it is (its flag
    included), keeps the set of story ids (no row is deleted, none is added)
    and every other collection, and a second run at the same [now] changes
    nothing. *)
Theorem C4_expiration_job_sweeps_and_is_idempotent (now : Date) (w : World) :
  let w' := story_expiration_job now w in
  (∀ id s, stories w !! id = Some s → Story.expiresAt s ≤ now →
     ∃ s', stories w' !! id = Some s' ∧
       Story.isActive s' = false ∧
       Story.userId s' = Story.userId s ∧ Story.mediaUrl s' = Story.mediaUrl s ∧
       Story.mediaId s' = Story.mediaId s ∧ Story.caption s' = Story.caption s ∧
       Story.createdAt s' = Story.createdAt s ∧ Story.expiresAt s' = Story.expiresAt s) ∧
  (∀ id s, stories w !! id = Some s → Story.expiresAt s > now →
     stories w' !! id = Some s) ∧
  dom (stories w') = dom (stories w) ∧
  (posts w' = posts w ∧ storyviews w' = storyviews w ∧ likes w' = likes w ∧
   follows w' = follows w ∧ notifications w' = notifications w ∧
   destroyed w' = destroyed w) ∧
  story_expiration_job now w' = w'.
Proof.
  unfold story_expiration_job, Story_updateMany. cbn [snd].
  split; [|split; [|split; [|split]]].
  - intros id s Hs Hle. cbn [stories set_stories].
    rewrite lookup_fmap, Hs; cbn. rewrite decide_True by done.
    eexists. split; [reflexivity|]. by destruct s.
  - intros id s Hs Hgt. cbn [stories set_stories].
    rewrite lookup_fmap, Hs; cbn. rewrite decide_False by lia. done.
  - cbn [stories set_stories]. apply dom_fmap_L.
  - done.
  - unfold set_stories. cbn. f_equal.
    apply map_eq. intros id. rewrite !lookup_fmap.
    destruct (stories w !! id) as [s|]; [|done]. cbn. f_equal.
    apply (expire_twice now s).
Qed.

Lemma C4_expiration_job_sweeps_and_is_idempotent_witness :
  let old := Story.mk 2 "https://media/m1" "stories/2/m1" None 0 1000 true in
  let new := Story.mk 3 "https://media/m2" "stories/3/m2" None 500 1500 true in
  let w := mkWorld {[ 7%N := old; 8%N := new ]} ∅ [] [] [] [] [] in
  (stories w !! 7%N = Some old ∧ Story.expiresAt old ≤ 1000 ∧
   stories (story_expiration_job 1000 w) !! 7%N =
     Some (Story.mk 2 "https://media/m1" "stories/2/m1" None 0 1000 false)) ∧
  (stories w !! 8%N = Some new ∧ Story.expiresAt new > 1000 ∧
   stories (story_expiration_job 1000 w) !! 8%N = Some new).
Proof.
  intros old new w.
  assert (H7 : stories w !! 7%N = Some old) by reflexivity.
  assert (H8 : stories w !! 8%N = Some new) by reflexivity.
  assert (Hold : Story.expiresAt old ≤ 1000) by (simpl; lia).
  assert (Hnew : Story.expiresAt new > 1000) by (simpl; lia).
  destruct (C4_expiration_job_sweeps_and_is_idempotent 1000 w) as (Hexp & Hkeep & _).
  split.
  - split; [exact H7|]. split; [exact Hold|].
    destruct (Hexp 7%N old H7 Hold) as (s' & Hs' & Hact & Hu & Hurl & Hm & Hc & Hcr & Hex).
    destruct s'. unfold old in Hu, Hurl, Hm, Hc, Hcr, Hex. simpl in *. subst. exact Hs'.
  - split; [exact H8|]. split; [exact Hnew|]. exact (Hkeep 8%N new H8 Hnew).
Defined.

(** ** Likes and follows *)

(** C5, evaluated.  Post 5 exists and belongs to user 2; user 1 asks to like
    it, once on a store without a Like of the pair and once on a store that
    holds one.  Both times the handler throws the ReferenceError of its first
    statement and leaves the store as it was: the first request inserts
    neither a Like nor a notification, the second is not answered with a
    conflict.  The same holds of every like request on every store. *)
Theorem C5_like_request_throws_before_the_store :
  let post := Post.mk 2 "https://media/p1" "posts/2/p1" None [] 0 in
  let fresh := mkWorld ∅ {[ 5%N := post ]} [] [] [] [] [] in
  let liked := mkWorld ∅ {[ 5%N := post ]} [] [Like.mk 5 1] [] [] [] in
  post_interactions_like 1 "000000000000000000000005" 10 fresh =
    (Threw (ReferenceError "validationResult"), fresh) ∧
  likes (post_interactions_like 1 "000000000000000000000005" 10 fresh).2 = [] ∧
  notifications (post_interactions_like 1 "000000000000000000000005" 10 fresh).2 = [] ∧
  post_interactions_like 1 "000000000000000000000005" 11 liked =
    (Threw (ReferenceError "validationResult"), liked) ∧
  ∀ userId postId now w,
    post_interactions_like userId postId now w =
      (Threw (ReferenceError "validationResult"), w).
Proof. intros post fresh liked. repeat split. Qed.

(** C10, evaluated.  No post has id 5 and user 1 has no Like for it; user 1
    asks to like it.  The handler throws the ReferenceError of its first
    statement: it answers no 500, and the store it leaves holds no Like. *)
Theorem C10_like_of_missing_post_saves_no_like :
  posts empty_world !! 5%N = None ∧
  (post_interactions_like 1 "000000000000000000000005" 10 empty_world).1 =
    Threw (ReferenceError "validationResult") ∧
  (post_interactions_like 1 "000000000000000000000005" 10 empty_world).1 ≠
    Answered (res 500 (JError "Server error")) ∧
  likes (post_interactions_like 1 "000000000000000000000005" 10 empty_world).2 = [] ∧
  (post_interactions_like 1 "000000000000000000000005" 10 empty_world).2 = empty_world.
Proof. repeat split. discriminate. Qed.

(** C8, evaluated.  User 1 follows user 2 and nobody else.  User 1 asks to
    follow itself, then user 2, then user 3: each time the handler throws
    the ReferenceError of its first statement and leaves the store as it
    was, so that the first two requests are not answered 400 and the third
    inserts neither an edge nor a notification.  The same holds of every
    follow request on every store. *)
Theorem C8_follow_request_throws_before_the_store :
  let w := mkWorld ∅ ∅ [] [] [Follow.mk 1 2] [] [] in
  post_interactions_follow 1 "000000000000000000000001" 10 w =
    (Threw (ReferenceError "validationResult"), w) ∧
  post_interactions_follow 1 "000000000000000000000002" 10 w =
    (Threw (ReferenceError "validationResult"), w) ∧
  post_interactions_follow 1 "000000000000000000000003" 10 w =
    (Threw (ReferenceError "validationResult"), w) ∧
  follows (post_interactions_follow 1 "000000000000000000000003" 10 w).2 = [Follow.mk 1 2] ∧
  notifications (post_interactions_follow 1 "000000000000000000000003" 10 w).2 = [] ∧
  ∀ userId followedId now w',
    post_interactions_follow userId followedId now w' =
      (Threw (ReferenceError "validationResult"), w').
Proof. intros w. repeat split. Qed.

(** ** The stories feed *)

(** The handler given to [router.get('/feed', ...)], run on its own: it
    answers 200 with, each once, exactly the stories of the store whose
    owner the viewer follows and that are active with [expiresAt > now],
    and leaves the world as it was. *)
Lemma get_stories_feed_run_on_its_own (viewer : ObjectId) (now : Date) (w : World) :
  ∃ found,
    get_stories_feed viewer now w = (res 200 (JStories found), w) ∧
    NoDup found ∧
    (∀ id s, (id, s) ∈ found ↔
       stories w !! id = Some s ∧
       Follow.mk viewer (Story.userId s) ∈ follows w ∧
       (Story.isActive s = true ∧ Story.expiresAt s > now)) ∧
    ((∀ f, f ∈ follows w → Follow.followerId f ≠ viewer) → found = []) ∧
    (∀ id s, Follow.mk viewer (Story.userId s) ∉ follows w → (id, s) ∉ found).
Proof.
  destruct (get_stories_feed_spec viewer now w) as (found & Heq & Hnd & Hin).
  exists found. split; [done|]. split; [done|]. split; [done|]. split.
  - intros Hnobody. apply elem_of_nil_inv. intros [id s] Hfound.
    apply Hin in Hfound as (_ & Hedge & _). by apply (Hnobody _ Hedge).
  - intros id s Hnot Hfound. apply Hin in Hfound as (_ & Hedge & _). done.
Qed.

Lemma matches_Param (segment : string) : segment ≠ "" → matches Param segment = true.
Proof.
  intros Hne. unfold matches. destruct (String.eqb_spec segment ""); done.
Qed.

Lemma by_segment_no_ObjectId {S R : Type} (castObjectId : string → option ObjectId)
    (error : R) (segment : string) (h : ObjectId → S → R * S) (s : S) :
  castObjectId segment = None → by_segment castObjectId error segment h s = (error, s).
Proof. intros Hcast. unfold by_segment. by rewrite Hcast. Qed.

(** C7, at the router.  A GET request for a path of one segment under
    /api/stories is given to the handler of ['/:userId'], registered first,
    whatever the segment: the feed handler is never run.  The segment
    "feed" is no ObjectId, so the request GET /api/stories/feed is answered
    500 "Server error", on every store and for every viewer, also one who
    follows nobody and one whose followed users have visible stories. *)
Theorem C7_feed_request_is_answered_by_the_owner_list_route
    (castObjectId : string → option ObjectId) (viewer : ObjectId) (now : Date) (w : World) :
  castObjectId "feed" = None →
  (∀ segment, segment ≠ "" →
     GET_api_stories castObjectId viewer now segment =
       Some (by_segment castObjectId (res 500 (JError "Server error")) segment
                        (λ id, get_stories_userId id now))) ∧
  ∃ h, GET_api_stories castObjectId viewer now "feed" = Some h ∧
       h w = (res 500 (JError "Server error"), w).
Proof.
  intros Hcast. split.
  - intros segment Hne. unfold GET_api_stories, stories_GET_routes. cbn [dispatch].
    by rewrite matches_Param.
  - eexists. split; [reflexivity|]. by apply by_segment_no_ObjectId.
Qed.

Lemma C7_feed_request_is_answered_by_the_owner_list_route_witness :
  let s := Story.mk 2 "https://media/m1" "stories/2/m1" None 0 1000 true in
  let w := mkWorld {[ 7%N := s ]} ∅ [] [] [Follow.mk 1 2] [] [] in
  ObjectId_of_hex "feed" = None ∧
  (∃ found, get_stories_feed 1 10 w = (res 200 (JStories found), w) ∧ (7%N, s) ∈ found) ∧
  ∃ h, GET_api_stories ObjectId_of_hex 1 10 "feed" = Some h ∧
       h w = (res 500 (JError "Server error"), w).
Proof.
  intros s w. split; [reflexivity|]. split.
  - exists [(7%N, s)]. split; [reflexivity | left].
  - exact (proj2 (C7_feed_request_is_answered_by_the_owner_list_route
                    ObjectId_of_hex 1 10 w eq_refl)).
Defined.

(** * Properties of the remaining code *)

(** ** The expiration job, composed *)

Lemma story_expiration_job_lookup (now : Date) (w : World) (id : ObjectId) :
  stories (story_expiration_job now w) !! id =
    (λ s, if decide (Story.expiresAt s ≤ now) then Story.set_isActive false s else s)
      <$> stories w !! id.
Proof.
  unfold story_expiration_job, Story_updateMany. cbn. apply lookup_fmap.
Qed.

(** X5. Two runs of the expiration job, at any two times and in any order,
    leave the world that one run at the later time leaves. *)
Theorem expiration_job_runs_compose (now1 now2 : Date) (w : World) :
  story_expiration_job now2 (story_expiration_job now1 w) =
    story_expiration_job (Z.max now1 now2) w.
Proof.
  unfold story_expiration_job, Story_updateMany. cbn [snd].
  unfold set_stories. cbn [stories posts storyviews likes follows notifications destroyed].
  f_equal. apply map_eq. intros id. rewrite !lookup_fmap.
  destruct (stories w !! id) as [s|]; [|done]. cbn. f_equal.
  destruct (decide (Story.expiresAt s ≤ now1)) as [H1|H1].
  - cbn. rewrite (decide_True (P := Story.expiresAt s ≤ Z.max now1 now2)) by lia.
    by destruct (decide (Story.expiresAt s ≤ now2)).
  - destruct (decide (Story.expiresAt s ≤ now2)) as [H2|H2].
    + by rewrite decide_True by lia.
    + by rewrite decide_False by lia.
Qed.

(** X6. What the job changes cannot be told by reading at or after the time
    of the run: for [now <= later], the owner's list and the feed answer
    with the same stories before and after a run at [now].  And once the job
    has run at [now], a story with [expiresAt <= now] is returned by no read
    and refused by the view handler (404) whatever the time of the request,
    the instant [expiresAt] itself included. *)
Theorem expiration_job_and_reads (now : Date) (w : World) :
  let w' := story_expiration_job now w in
  (∀ later u id s, now ≤ later →
     ((id, s) ∈ docs_of (get_stories_userId u later w').1 ↔
      (id, s) ∈ docs_of (get_stories_userId u later w).1) ∧
     ((id, s) ∈ docs_of (get_stories_feed u later w').1 ↔
      (id, s) ∈ docs_of (get_stories_feed u later w).1)) ∧
  (∀ id s, stories w !! id = Some s → Story.expiresAt s ≤ now →
     ∀ t u s',
       ((id, s') ∉ docs_of (get_stories_userId u t w').1) ∧
       ((id, s') ∉ docs_of (get_stories_feed u t w').1) ∧
       post_stories_view u id t w' =
         (res 404 (JError "Story not found or expired"), w')).
Proof.
  intros w'. split.
  - intros later u id s Hle.
    destruct (get_stories_userId_spec u later w') as (f1 & -> & _ & H1).
    destruct (get_stories_userId_spec u later w) as (f2 & -> & _ & H2).
    destruct (get_stories_feed_spec u later w') as (f3 & -> & _ & H3).
    destruct (get_stories_feed_spec u later w) as (f4 & -> & _ & H4).
    unfold docs_of; cbn [fst body]. rewrite H1, H2, H3, H4.
    assert (Hlook : ∀ s0, Story.isActive s0 = true → Story.expiresAt s0 > later →
              (stories w' !! id = Some s0 ↔ stories w !! id = Some s0)).
    { intros s0 Hact Hgt. unfold w'. rewrite story_expiration_job_lookup.
      destruct (stories w !! id) as [s1|]; cbn; [|done].
      destruct (decide (Story.expiresAt s1 ≤ now)) as [Hexp|Hexp]; [|done].
      split; intros [= <-]; [discriminate Hact | lia]. }
    change (follows w') with (follows w).
    split; split; intros (Hs & Hrest); (split; [|done]);
      apply Hlook; tauto.
  - intros id s Hs Hexp t u s'.
    assert (Hs' : stories w' !! id = Some (Story.set_isActive false s)).
    { unfold w'. rewrite story_expiration_job_lookup, Hs. cbn. by rewrite decide_True. }
    destruct (get_stories_userId_spec u t w') as (f1 & -> & _ & H1).
    destruct (get_stories_feed_spec u t w') as (f3 & -> & _ & H3).
    unfold docs_of; cbn [fst body]. rewrite H1, H3, Hs'.
    split; [|split].
    + intros ([= <-] & _ & Hact & _). discriminate Hact.
    + intros ([= <-] & _ & Hact & _). discriminate Hact.
    + apply post_stories_view_not_found. right. eexists. split; [done|]. by left.
Qed.

Lemma expiration_job_and_reads_witness :
  let s := Story.mk 2 "https://media/m1" "stories/2/m1" None 0 1000 true in
  let w := mkWorld {[ 7%N := s ]} ∅ [] [] [Follow.mk 1 2] [] [] in
  let w' := story_expiration_job 1000 w in
  (1000 ≤ 1500 ∧ stories w !! 7%N = Some s ∧ Story.expiresAt s ≤ 1000) ∧
  ((7%N, s) ∈ docs_of (get_stories_feed 1 1500 w').1 ↔
   (7%N, s) ∈ docs_of (get_stories_feed 1 1500 w).1) ∧
  post_stories_view 1 7 1000 w' = (res 404 (JError "Story not found or expired"), w').
Proof.
  intros s w w'.
  assert (Hle : 1000 ≤ 1500) by lia.
  assert (Hs : stories w !! 7%N = Some s) by reflexivity.
  assert (Hexp : Story.expiresAt s ≤ 1000) by (simpl; lia).
  split; [by repeat split|].
  destruct (expiration_job_and_reads 1000 w) as [Hsame Hswept].
  split.
  - exact (proj2 (Hsame 1500 1%N 7%N s Hle)).
  - exact (proj2 (proj2 (Hswept 7%N s Hs Hexp 1000 1%N s))).
Defined.


(** ** Views and deletions *)

(** X7. A view request answers 500, 404 or 200 and nothing else: 500
    exactly when the path segment given as the story id is no ObjectId, 404
    exactly when it is one and the story is missing, inactive, or has
    [expiresAt < now], 200 otherwise.  Unless it answers 200 it leaves the
    store as it was, and it never changes a story. *)
Theorem view_answers_500_404_or_200
    (castObjectId : string → option ObjectId) (viewer : ObjectId) (now : Date)
    (segment : string) (w : World) :
  let r := POST_api_stories_view castObjectId viewer now segment w in
  (status r.1 = 500 ∨ status r.1 = 404 ∨ status r.1 = 200) ∧
  (status r.1 = 500 ↔ castObjectId segment = None) ∧
  (status r.1 = 404 ↔
   ∃ id, castObjectId segment = Some id ∧
     (stories w !! id = None ∨
      ∃ s, stories w !! id = Some s ∧
           (Story.isActive s = false ∨ Story.expiresAt s < now))) ∧
  (status r.1 ≠ 200 → r.2 = w) ∧
  stories r.2 = stories w.
Proof.
  intros r. subst r. unfold POST_api_stories_view, by_segment.
  destruct (castObjectId segment) as [id|] eqn:Hcast.
  - assert (Hcases : (stories w !! id = None ∨
        ∃ s, stories w !! id = Some s ∧
             (Story.isActive s = false ∨ Story.expiresAt s < now)) ∨
        ∃ s, stories w !! id = Some s ∧ Story.isActive s = true ∧
             ¬ Story.expiresAt s < now).
    { destruct (stories w !! id) as [s|]; [|by left; left].
      destruct (Story.isActive s) eqn:Hact; [|left; right; eauto].
      destruct (decide (Story.expiresAt s < now)); [left; right; eauto|right; eauto]. }
    destruct Hcases as [Hbad | (s & Hs & Hact & Hge)].
    + rewrite post_stories_view_not_found by done. cbn.
      split; [by right; left|]. split; [split; intros H; discriminate H|].
      split; [|done]. split; [intros _; by exists id|done].
    + rewrite (post_stories_view_recorded viewer id now w s) by done. cbn.
      split; [by right; right|]. split; [split; intros H; discriminate H|].
      split; [|done]. split; [intros H; discriminate H|].
      intros (id' & Hid' & Hbad). injection Hid' as <-.
      destruct Hbad as [Hnone | (s' & Hs' & [Hina | Hlt])]; simplify_eq; congruence.
  - cbn. split; [by left|]. split; [done|]. split; [|done].
    split; [intros H; discriminate H|]. intros (id & Hid & _). discriminate Hid.
Qed.

Lemma view_answers_500_404_or_200_witness :
  let s := Story.mk 2 "https://media/m1" "stories/2/m1" None 0 1000 true in
  let w := mkWorld {[ 7%N := s ]} ∅ [] [] [] [] [] in
  ObjectId_of_hex "latest" = None ∧
  status (POST_api_stories_view ObjectId_of_hex 1 10 "latest" w).1 = 500 ∧
  ObjectId_of_hex "000000000000000000000007" = Some 7%N ∧
  status (POST_api_stories_view ObjectId_of_hex 1 10 "000000000000000000000007" w).1 = 200 ∧
  status (POST_api_stories_view ObjectId_of_hex 1 1001 "000000000000000000000007" w).1 = 404.
Proof.
  intros s w.
  assert (Hno : ObjectId_of_hex "latest" = None) by reflexivity.
  split; [exact Hno|]. split.
  - exact (proj2 (proj1 (proj2 (view_answers_500_404_or_200
                                  ObjectId_of_hex 1 10 "latest" w))) Hno).
  - split; [reflexivity|]. split; reflexivity.
Defined.

(** X8. A deletion is final: after the owner has deleted a story (the
    media service's [destroy] resolving), every further deletion of it, by
    anyone, answers 404 and calls [destroy] no more, and every view of it
    answers 404; the view rows and notifications written for the story are
    still there. *)
Theorem deleted_story_stays_deleted
    (destroy_rejects : string → bool) (id : ObjectId) (w : World) (s : Story.t) :
  stories w !! id = Some s → destroy_rejects (Story.mediaId s) = false →
  let w1 := (delete_stories_id destroy_rejects (Story.userId s) id w).2 in
  (∀ u, delete_stories_id destroy_rejects u id w1 =
          (res 404 (JError "Story not found"), w1)) ∧
  (∀ u t, post_stories_view u id t w1 =
            (res 404 (JError "Story not found or expired"), w1)) ∧
  destroyed w1 = destroyed w ++ [Story.mediaId s] ∧
  storyviews w1 = storyviews w ∧ notifications w1 = notifications w.
Proof.
  intros Hs Hok w1. subst w1.
  rewrite (delete_stories_id_deleted destroy_rejects id w s Hs Hok). cbn [snd].
  set (w1 := set_stories _ _).
  assert (Hgone : stories w1 !! id = None) by apply lookup_delete_eq.
  split; [|split; [|done]].
  - intros u. by apply delete_stories_id_not_found.
  - intros u t. apply post_stories_view_not_found. by left.
Qed.

Lemma deleted_story_stays_deleted_witness :
  let s := Story.mk 2 "https://media/m1" "stories/2/m1" None 0 1000 true in
  let w := mkWorld {[ 7%N := s ]} ∅ [StoryView.mk 7 1] [] [] [] [] in
  let up := λ _ : string, false in
  let w1 := (delete_stories_id up 2 7 w).2 in
  (stories w !! 7%N = Some s ∧ up (Story.mediaId s) = false) ∧
  delete_stories_id up 2 7 w1 = (res 404 (JError "Story not found"), w1) ∧
  destroyed w1 = ["stories/2/m1"] ∧
  storyviews w1 = [StoryView.mk 7 1].
Proof.
  intros s w up w1.
  assert (Hs : stories w !! 7%N = Some s) by reflexivity.
  split; [by split|].
  destruct (deleted_story_stays_deleted up 7 w s Hs eq_refl) as (Hdel & _ & Hlog & Hv & _).
  split; [exact (Hdel 2%N)|]. split; [exact Hlog | exact Hv].
Defined.

Lemma delete_posts_id_not_found
    (destroy_rejects : string → bool) (userId id : ObjectId) (w : World) :
  posts w !! id = None →
  delete_posts_id destroy_rejects userId id w = (res 404 (JError "Post not found"), w).
Proof. intros Hp. unfold delete_posts_id. run_handler. by rewrite Hp. Qed.

Lemma delete_posts_id_forbidden
    (destroy_rejects : string → bool) (userId id : ObjectId) (w : World) (p : Post.t) :
  posts w !! id = Some p → Post.userId p ≠ userId →
  delete_posts_id destroy_rejects userId id w = (res 403 (JError "Unauthorized"), w).
Proof.
  intros Hp Hne. unfold delete_posts_id. run_handler.
  by rewrite Hp, bool_decide_eq_true_2.
Qed.

(** X9. Deleting a post answers 404 when no post has the id and 403 when
    the requester is not its owner, the world being left as it was; for the
    owner, when [destroy] resolves, it answers 200, has called [destroy]
    once with the post's [mediaId] and has removed the post and nothing
    else: the Likes and the notifications that name the post are kept, so
    they then name a post that does not exist.  The answer is 200 in that
    case only. *)
Theorem delete_post_outcomes
    (destroy_rejects : string → bool) (requester id : ObjectId) (w : World) :
  (posts w !! id = None →
   delete_posts_id destroy_rejects requester id w =
     (res 404 (JError "Post not found"), w)) ∧
  (∀ p, posts w !! id = Some p → Post.userId p ≠ requester →
   delete_posts_id destroy_rejects requester id w =
     (res 403 (JError "Unauthorized"), w)) ∧
  (∀ p, posts w !! id = Some p → Post.userId p = requester →
   destroy_rejects (Post.mediaId p) = false →
   let r := delete_posts_id destroy_rejects requester id w in
   r.1 = res 200 (JMessage "Post deleted") ∧
   destroyed r.2 = destroyed w ++ [Post.mediaId p] ∧
   posts r.2 = delete id (posts w) ∧ posts r.2 !! id = None ∧
   likes r.2 = likes w ∧ notifications r.2 = notifications w ∧
   stories r.2 = stories w ∧ storyviews r.2 = storyviews w ∧ follows r.2 = follows w ∧
   (∀ u, Like.mk id u ∈ likes w → Like.mk id u ∈ likes r.2 ∧ posts r.2 !! id = None)) ∧
  (status (delete_posts_id destroy_rejects requester id w).1 = 200 ↔
   ∃ p, posts w !! id = Some p ∧ Post.userId p = requester ∧
        destroy_rejects (Post.mediaId p) = false).
Proof.
  split; [|split; [|split]].
  - apply delete_posts_id_not_found.
  - intros p. apply delete_posts_id_forbidden.
  - intros p Hp <- Hok r. subst r.
    rewrite (delete_posts_id_deleted destroy_rejects id w p Hp Hok). cbn.
    assert (Hgone : delete id (posts w) !! id = None) by apply lookup_delete_eq.
    repeat split; done.
  - split.
    + intros H200. destruct (posts w !! id) as [p|] eqn:Hp.
      * exists p. split; [done|].
        destruct (decide (Post.userId p = requester)) as [<-|Hne].
        -- split; [done|]. destruct (destroy_rejects (Post.mediaId p)) eqn:Hd; [|done].
           rewrite (delete_posts_id_destroy_rejected destroy_rejects id w p Hp Hd) in H200.
           discriminate H200.
        -- rewrite (delete_posts_id_forbidden destroy_rejects requester id w p Hp Hne)
             in H200. discriminate H200.
      * rewrite (delete_posts_id_not_found destroy_rejects requester id w Hp) in H200.
        discriminate H200.
    + intros (p & Hp & <- & Hok).
      by rewrite (delete_posts_id_deleted destroy_rejects id w p Hp Hok).
Qed.

Lemma delete_post_outcomes_witness :
  let p := Post.mk 2 "https://media/p1" "posts/2/p1" None [] 0 in
  let w := mkWorld ∅ {[ 5%N := p ]} [] [Like.mk 5 1] [] [] [] in
  let up := λ _ : string, false in
  (posts w !! 6%N = None ∧
   delete_posts_id up 2 6 w = (res 404 (JError "Post not found"), w)) ∧
  (posts w !! 5%N = Some p ∧ Post.userId p ≠ 1%N ∧
   delete_posts_id up 1 5 w = (res 403 (JError "Unauthorized"), w)) ∧
  (Post.userId p = 2%N ∧ up (Post.mediaId p) = false ∧ Like.mk 5 1 ∈ likes w ∧
   (delete_posts_id up 2 5 w).1 = res 200 (JMessage "Post deleted") ∧
   Like.mk 5 1 ∈ likes (delete_posts_id up 2 5 w).2 ∧
   posts (delete_posts_id up 2 5 w).2 !! 5%N = None).
Proof.
  intros p w up.
  assert (H6 : posts w !! 6%N = None) by reflexivity.
  assert (H5 : posts w !! 5%N = Some p) by reflexivity.
  assert (Hne : Post.userId p ≠ 1%N) by (simpl; lia).
  assert (Hin : Like.mk 5 1 ∈ likes w) by left.
  destruct (delete_post_outcomes up 2 6 w) as (H404 & _).
  destruct (delete_post_outcomes up 1 5 w) as (_ & H403 & _).
  destruct (delete_post_outcomes up 2 5 w) as (_ & _ & H200 & _).
  destruct (H200 p H5 eq_refl eq_refl) as (Hr & _ & _ & _ & _ & _ & _ & _ & _ & Hdangling).
  split; [split; [exact H6 | exact (H404 H6)]|].
  split; [split; [exact H5|split; [exact Hne | exact (H403 p H5 Hne)]]|].
  split; [reflexivity|]. split; [reflexivity|]. split; [exact Hin|].
  split; [exact Hr|]. exact (Hdangling 1%N Hin).
Defined.

(** ** Sorted, paged answers *)

#[global] Instance newer_first_transitive {A} (key : A → Date) : Transitive (newer_first key).
Proof. intros a b c. unfold newer_first. lia. Qed.
#[global] Instance newer_first_total {A} (key : A → Date) : Total (newer_first key).
Proof. intros a b. unfold newer_first. lia. Qed.

Section SortedPages.

Context {A : Type} (key : A → Date).

Lemma sort_desc_elem_of (l : list A) (x : A) : x ∈ sort_desc key l ↔ x ∈ l.
Proof. unfold sort_desc. by rewrite merge_sort_Permutation. Qed.

Lemma sort_desc_sorted (l : list A) : StronglySorted (newer_first key) (sort_desc key l).
Proof. apply StronglySorted_merge_sort; apply _. Qed.

Lemma sort_desc_NoDup (l : list A) : NoDup l → NoDup (sort_desc key l).
Proof. unfold sort_desc. by rewrite merge_sort_Permutation. Qed.

Lemma sort_desc_length (l : list A) : length (sort_desc key l) = length l.
Proof. unfold sort_desc. by rewrite merge_sort_Permutation. Qed.

Lemma limit_sorted (l : list A) (m : nat) :
  StronglySorted (newer_first key) l → StronglySorted (newer_first key) (limit m l).
Proof.
  intros Hl. unfold limit.
  rewrite <- (take_drop m l) in Hl. by apply StronglySorted_app_1_l in Hl.
Qed.

(** What a limit leaves out is not newer than what it keeps. *)
Lemma limit_keeps_newest (l : list A) (m : nat) (x y : A) :
  StronglySorted (newer_first key) l →
  x ∈ limit m l → y ∈ l → y ∉ limit m l → key y ≤ key x.
Proof.
  intros Hl Hx Hy Hny. unfold limit in *.
  rewrite <- (take_drop m l) in Hl, Hy.
  apply elem_of_app in Hy as [Hy|Hy]; [done|].
  by apply (StronglySorted_app_1_elem_of _ _ _ x y) in Hl.
Qed.


End SortedPages.

Lemma set_world_same (st : Store) : set_world (λ _, world st) st = st.
Proof. by destruct st. Qed.

(** ** Notifications *)

Lemma get_notifications_eq (u : ObjectId) (st : Store) :
  get_notifications u st =
    (reply 200 (PNotifications
       (limit 20 (sort_desc Notification.createdAt
                    (filter (λ n, Notification.userId n = u) (notifications (world st)))))),
     st).
Proof. unfold get_notifications. run_route. by rewrite set_world_same. Qed.

(** X16. Reading one's notifications answers 200 and leaves the store as
    it was; the answer holds at most 20 notifications, all addressed to the
    requester, newest first; none addressed to the requester that is left
    out is newer than one returned; and when the requester has at most 20,
    all are returned. *)
Theorem notifications_are_the_20_newest (u : ObjectId) (st : Store) :
  ∃ found,
    get_notifications u st = (reply 200 (PNotifications found), st) ∧
    (length found ≤ 20)%nat ∧
    (∀ n, n ∈ found → n ∈ notifications (world st) ∧ Notification.userId n = u) ∧
    StronglySorted (newer_first Notification.createdAt) found ∧
    (∀ n m, n ∈ found → m ∈ notifications (world st) → Notification.userId m = u →
       m ∉ found → Notification.createdAt m ≤ Notification.createdAt n) ∧
    ((length (filter (λ n, Notification.userId n = u) (notifications (world st))) ≤ 20)%nat →
     ∀ m, m ∈ notifications (world st) → Notification.userId m = u → m ∈ found).
Proof.
  eexists. split; [apply get_notifications_eq|].
  set (mine := filter (λ n, Notification.userId n = u) (notifications (world st))).
  pose proof (sort_desc_sorted Notification.createdAt mine) as Hsorted.
  split; [unfold limit; rewrite length_take; lia|].
  split.
  { intros n Hn. unfold limit in Hn. apply subseteq_take in Hn.
    apply sort_desc_elem_of, list_elem_of_filter in Hn. tauto. }
  split.
  { by apply limit_sorted. }
  split.
  - intros n m Hn Hm Hu Hout.
    apply (limit_keeps_newest Notification.createdAt (sort_desc Notification.createdAt mine)
             20 n m); try done.
    apply sort_desc_elem_of. by apply list_elem_of_filter.
  - intros Hfew m Hm Hu. unfold limit.
    rewrite take_ge by (by rewrite sort_desc_length).
    apply sort_desc_elem_of. by apply list_elem_of_filter.
Qed.

Lemma notifications_are_the_20_newest_witness :
  let n1 := Notification.mk 2 Notification.like 1 (Some 5%N) None 10 in
  let n2 := Notification.mk 3 Notification.follow 1 None None 20 in
  let n3 := Notification.mk 2 Notification.follow 3 None None 30 in
  let st := mkStore (mkWorld ∅ ∅ [] [] [] [n1; n2; n3] []) [] ∅ in
  ((length (filter (λ n, Notification.userId n = 2%N) (notifications (world st))) ≤ 20)%nat ∧
   n1 ∈ notifications (world st) ∧ Notification.userId n1 = 2%N) ∧
  get_notifications 2 st = (reply 200 (PNotifications [n3; n1]), st) ∧
  n1 ∈ notifications_of (get_notifications 2 st).1.
Proof.
  intros n1 n2 n3 st.
  assert (Hfew : (length (filter (λ n, Notification.userId n = 2%N)
                            (notifications (world st))) ≤ 20)%nat) by (vm_compute; lia).
  assert (Hin : n1 ∈ notifications (world st)) by left.
  split; [by repeat split|]. split; [reflexivity|].
  destruct (notifications_are_the_20_newest 2 st) as (found & Heq & _ & _ & _ & _ & Hall).
  rewrite Heq. exact (Hall Hfew n1 Hin eq_refl).
Defined.

(** ** Accounts *)

Lemma head_filter_None {A} (P : A → Prop) `{∀ x, Decision (P x)} (l : list A) :
  head (filter P l) = None ↔ ∀ x, x ∈ l → ¬ P x.
Proof.
  rewrite head_None. split.
  - intros Hnil x Hin HP.
    assert (Hx : x ∈ filter P l) by by apply list_elem_of_filter.
    rewrite Hnil in Hx. by apply not_elem_of_nil in Hx.
  - intros Hno. destruct (filter P l) as [|y l'] eqn:E; [done|].
    assert (Hy : y ∈ filter P l) by (rewrite E; left).
    apply list_elem_of_filter in Hy as [HP Hin]. by destruct (Hno y Hin).
Qed.

Lemma head_filter_Some {A} (P : A → Prop) `{∀ x, Decision (P x)} (l : list A) (x : A) :
  head (filter P l) = Some x → x ∈ l ∧ P x.
Proof.
  intros Hh. apply head_Some_elem_of, list_elem_of_filter in Hh. tauto.
Qed.


Section Register.

Variable bcrypt_hash : string → string → string.
Variable jwt_sign : ObjectId → Date → string.

Lemma post_auth_register_taken
    (username email password salt : string) (_id : ObjectId) (now : Date) (st : Store)
    (i : ObjectId) (u : User.t) :
  users st !! i = Some u → User.email u = email ∨ User.username u = username →
  post_auth_register bcrypt_hash jwt_sign [] username email password salt _id now st =
    (reply 400 (PJson (JError "User already exists")), st).
Proof.
  intros Hu Hclash. unfold post_auth_register. run_route.
  destruct (head (filter _ (map_to_list (users st)))) as [d|] eqn:E; [done|].
  rewrite head_filter_None in E.
  destruct (E (i, u)); [by apply elem_of_map_to_list | done].
Qed.

Lemma post_auth_register_created
    (username email password salt : string) (_id : ObjectId) (now : Date) (st : Store) :
  (∀ i u, users st !! i = Some u → User.email u ≠ email ∧ User.username u ≠ username) →
  users st !! _id = None →
  post_auth_register bcrypt_hash jwt_sign [] username email password salt _id now st =
    (reply 201 (PToken (jwt_sign _id now)),
     set_users <[_id := User.mk username email (bcrypt_hash password salt)
                                None None None now]> st).
Proof.
  intros Hfree Hfresh. unfold post_auth_register. run_route.
  assert (Hnone : ∀ P : ObjectId * User.t → Prop, ∀ Hdec : ∀ d, Decision (P d),
            (∀ d, P d → User.email d.2 = email ∨ User.username d.2 = username) →
            filter P (map_to_list (users st)) = []).
  { intros P Hdec HP. apply elem_of_nil_inv. intros [i u] Hin.
    apply list_elem_of_filter in Hin as [HPd Hin]. apply elem_of_map_to_list in Hin.
    destruct (Hfree i u Hin) as [He Hn]. destruct (HP _ HPd); simpl in *; done. }
  rewrite (Hnone (λ d, User.email d.2 = email ∨ User.username d.2 = username)) by tauto.
  cbn. rewrite Hfresh.
  by rewrite (Hnone (λ d, User.username d.2 = username ∨ User.email d.2 = email)) by tauto.
Qed.

Lemma post_auth_register_id_taken
    (username email password salt : string) (_id : ObjectId) (now : Date) (st : Store) :
  (∀ i u, users st !! i = Some u → User.email u ≠ email ∧ User.username u ≠ username) →
  is_Some (users st !! _id) →
  post_auth_register bcrypt_hash jwt_sign [] username email password salt _id now st =
    (reply 500 (PJson (JError "Server error")), st).
Proof.
  intros Hfree [u Hu]. destruct (Hfree _id u Hu) as [He Hn].
  unfold post_auth_register. run_route.
  destruct (head (filter _ (map_to_list (users st)))) as [[i v]|] eqn:E.
  { apply head_filter_Some in E as [Hin HP]. apply elem_of_map_to_list in Hin.
    destruct (Hfree i v Hin). cbn in HP. tauto. }
  cbn. by rewrite Hu.
Qed.


End Register.

Section Login.

Variable bcrypt_compare : string → string → bool.
Variable jwt_sign : ObjectId → Date → string.



End Login.






(** ** The routes that call [validationResult] *)



(** ** The posts feed *)

(** X14. A GET request for a path of one segment under /api/posts is given
    to the handler of ['/:id'], registered first, whatever the segment: the
    feed handler is never run.  The segment "feed" is no ObjectId, so the
    request GET /api/posts/feed is answered 500 "Server error", whatever the
    page, the limit and the store, which is left as it was. *)
Theorem posts_feed_request_is_answered_by_the_post_route
    (castObjectId : string → option ObjectId) (userId : ObjectId)
    (query_page query_limit : option string) (st : Store) :
  castObjectId "feed" = None →
  (∀ segment, segment ≠ "" →
     GET_api_posts castObjectId userId query_page query_limit segment =
       Some (answers (by_segment castObjectId (reply 500 (PJson (JError "Server error")))
                                 segment get_posts_id))) ∧
  ∃ h, GET_api_posts castObjectId userId query_page query_limit "feed" = Some h ∧
       h st = (Answered (reply 500 (PJson (JError "Server error"))), st).
Proof.
  intros Hcast. split.
  - intros segment Hne. unfold GET_api_posts, posts_GET_routes. cbn [dispatch].
    by rewrite matches_Param.
  - eexists. split; [reflexivity|]. unfold answers.
    by rewrite by_segment_no_ObjectId.
Qed.

Lemma posts_feed_request_is_answered_by_the_post_route_witness :
  let p := Post.mk 2 "https://media/p1" "posts/2/p1" None [] 0 in
  let st := mkStore (mkWorld ∅ {[ 5%N := p ]} [] [] [Follow.mk 1 2] [] []) [] ∅ in
  ObjectId_of_hex "feed" = None ∧
  (∃ h, GET_api_posts ObjectId_of_hex 1 (Some "1") (Some "20") "feed" = Some h ∧
        h st = (Answered (reply 500 (PJson (JError "Server error"))), st)) ∧
  ∃ h, GET_api_posts ObjectId_of_hex 1 None None "000000000000000000000005" = Some h ∧
       h st = (Answered (reply 200 (PPost (5%N, p))), st).
Proof.
  intros p st. split; [reflexivity|]. split.
  - exact (proj2 (posts_feed_request_is_answered_by_the_post_route
                    ObjectId_of_hex 1 (Some "1") (Some "20") st eq_refl)).
  - eexists. split; [reflexivity|]. reflexivity.
Defined.

(** ** What every request keeps *)

Section EveryCall.

Variable destroy_rejects : string → bool.
Variable bcrypt_hash : string → string → string.
Variable bcrypt_compare : string → string → bool.
Variable jwt_sign : ObjectId → Date → string.

Abbreviation step := (serve_call destroy_rejects bcrypt_hash bcrypt_compare jwt_sign).
Abbreviation steps := (run_calls destroy_rejects bcrypt_hash bcrypt_compare jwt_sign).

Lemma serve_call_users (now : Date) (c : Call) (st : Store) :
  (∀ e n m p s i, c ≠ POST_auth_register e n m p s i) →
  users (step now c st) = users st.
Proof.
  intros Hother. destruct c; cbn [serve_call];
    try (by destruct (Hother errors username email password salt _id)); try done;
    unfold get_posts_id, get_notifications, post_auth_login; route_cases.
Qed.

Lemma post_auth_register_cases
    (errors : list string) (username email password salt : string) (_id : ObjectId)
    (now : Date) (st : Store) :
  let st' := (post_auth_register bcrypt_hash jwt_sign errors username email password
                                 salt _id now st).2 in
  st' = st ∨
  ((∀ i u, users st !! i = Some u → User.email u ≠ email ∧ User.username u ≠ username) ∧
   users st !! _id = None ∧
   st' = set_users <[_id := User.mk username email (bcrypt_hash password salt)
                                    None None None now]> st).
Proof.
  intros st'. subst st'. destruct errors as [|e errors]; [|by left].
  destruct (head (filter (λ d : ObjectId * User.t,
      User.email d.2 = email ∨ User.username d.2 = username)
      (map_to_list (users st)))) as [[i u]|] eqn:E.
  - apply head_filter_Some in E as [Hin HP]. apply elem_of_map_to_list in Hin.
    left. by rewrite (post_auth_register_taken bcrypt_hash jwt_sign username email
                        password salt _id now st i u).
  - assert (Hfree : ∀ i u, users st !! i = Some u →
              User.email u ≠ email ∧ User.username u ≠ username).
    { intros i u Hu. rewrite head_filter_None in E.
      specialize (E (i, u)). rewrite elem_of_map_to_list in E. specialize (E Hu).
      cbn in E. tauto. }
    destruct (users st !! _id) as [v|] eqn:Hid.
    + left. by rewrite post_auth_register_id_taken by eauto.
    + right. split; [done|]. split; [done|]. by rewrite post_auth_register_created.
Qed.

Lemma serve_call_users_unique (now : Date) (c : Call) (st : Store) :
  users_unique st → users_unique (step now c st).
Proof.
  intros Husers.
  destruct c; try (unfold users_unique; rewrite serve_call_users by done; exact Husers).
  cbn [serve_call].
  destruct (post_auth_register_cases errors username email password salt _id now st)
    as [-> | (Hfree & Hfresh & ->)]; [done|].
  intros i j u v Hi Hj Hclash. cbn [users set_users] in Hi, Hj.
  destruct (decide (_id = i)) as [<-|Hni]; destruct (decide (_id = j)) as [<-|Hnj];
    [done| | |].
  - rewrite lookup_insert_eq in Hi. rewrite lookup_insert_ne in Hj by done.
    injection Hi as <-. destruct (Hfree j v Hj). cbn in Hclash. destruct Hclash; congruence.
  - rewrite lookup_insert_eq in Hj. rewrite lookup_insert_ne in Hi by done.
    injection Hj as <-. destruct (Hfree i u Hi). cbn in Hclash. destruct Hclash; congruence.
  - rewrite lookup_insert_ne in Hi, Hj by done. by apply (Husers i j u v).
Qed.

(** X22. No two users ever share a username or an email: this holds in the
    empty store and, once it holds, after any sequence of the modelled
    requests (and runs of the job). *)
Theorem usernames_and_emails_stay_unique (trace : list (Date * Call)) (st : Store) :
  users_unique empty_store ∧
  (users_unique st → users_unique (steps trace st)).
Proof.
  split.
  - intros i j u v Hi. cbn in Hi. by rewrite lookup_empty in Hi.
  - revert st. induction trace as [|[now c] trace IH]; intros st Hinv; [done|].
    cbn [run_calls]. by apply IH, serve_call_users_unique.
Qed.

(** What one request writes besides stories and posts: nothing, or (a view
    that succeeds) one view row and one [story_view] notification. *)
Lemma serve_writes (now : Date) (r : Request) (w : World) :
  likes (serve destroy_rejects now r w) = likes w ∧
  follows (serve destroy_rejects now r w) = follows w ∧
  ∃ added,
    notifications (serve destroy_rejects now r w) = notifications w ++ added ∧
    Forall (λ n, Notification.type_ n = Notification.story_view) added.
Proof.
  assert (Hsame : ∀ w', likes w' = likes w → follows w' = follows w →
            notifications w' = notifications w →
            likes w' = likes w ∧ follows w' = follows w ∧
            ∃ added, notifications w' = notifications w ++ added ∧
              Forall (λ n, Notification.type_ n = Notification.story_view) added).
  { intros w' Hl Hf Hn. split; [done|]. split; [done|].
    exists []. by rewrite app_nil_r. }
  destruct r; cbn [serve];
    [by apply Hsame | by apply Hsame | | | | by apply Hsame | by apply Hsame
     | by apply Hsame | by apply Hsame | by apply Hsame].
  - unfold post_stories_view. run_handler.
    destruct (stories w !! params_id) as [s|]; [|by apply Hsame].
    destruct (negb (Story.isActive s) || bool_decide (Story.expiresAt s < now));
      [by apply Hsame|].
    cbn. split; [done|]. split; [done|]. eexists. split; [reflexivity|].
    by repeat constructor.
  - apply Hsame; unfold delete_stories_id; handler_cases.
  - apply Hsame; unfold delete_posts_id; handler_cases.
Qed.

Lemma serve_call_writes (now : Date) (c : Call) (st : Store) :
  likes (world (step now c st)) = likes (world st) ∧
  follows (world (step now c st)) = follows (world st) ∧
  comments (step now c st) = comments st ∧
  ∃ added,
    notifications (world (step now c st)) = notifications (world st) ++ added ∧
    Forall (λ n, Notification.type_ n = Notification.story_view) added.
Proof.
  assert (Hsame : ∀ st', st' = st →
            likes (world st') = likes (world st) ∧
            follows (world st') = follows (world st) ∧
            comments st' = comments st ∧
            ∃ added, notifications (world st') = notifications (world st) ++ added ∧
              Forall (λ n, Notification.type_ n = Notification.story_view) added).
  { intros st' ->. repeat split. exists []. by rewrite app_nil_r. }
  destruct c; cbn [serve_call].
  - cbn [world set_world comments].
    destruct (serve_writes now r (world st)) as (Hl & Hf & Hn). by repeat split.
  - by apply Hsame.
  - by apply Hsame.
  - apply Hsame. unfold get_posts_id. route_cases; by destruct st.
  - by apply Hsame.
  - by apply Hsame.
  - apply Hsame. by rewrite get_notifications_eq.
  - destruct (post_auth_register_cases errors username email password salt _id now st)
      as [-> | (_ & _ & ->)]; [by apply Hsame|].
    cbn. repeat split. exists []. by rewrite app_nil_r.
  - apply Hsame. unfold post_auth_login. route_cases.
Qed.

Lemma serve_story_origin (now : Date) (r : Request) (w : World) (id : ObjectId) :
  is_Some (stories (serve destroy_rejects now r w) !! id) → is_Some (stories w !! id).
Proof.
  destruct r; cbn [serve]; [done | done | | | | done | done | done | done | ].
  - assert (Hsame : stories (post_stories_view userId params_id now w).2 = stories w)
      by (unfold post_stories_view; handler_cases).
    by rewrite Hsame.
  - unfold delete_stories_id. handler_cases.
    rewrite lookup_delete_is_Some. tauto.
  - assert (Hsame : stories (delete_posts_id destroy_rejects userId params_id w).2 = stories w)
      by (unfold delete_posts_id; handler_cases).
    by rewrite Hsame.
  - rewrite story_expiration_job_lookup. by rewrite fmap_is_Some.
Qed.

Lemma serve_post_origin (now : Date) (r : Request) (w : World) (id : ObjectId) :
  is_Some (posts (serve destroy_rejects now r w) !! id) → is_Some (posts w !! id).
Proof.
  destruct r; cbn [serve]; [done | done | | | | done | done | done | done | done].
  - assert (Hsame : posts (post_stories_view userId params_id now w).2 = posts w)
      by (unfold post_stories_view; handler_cases).
    by rewrite Hsame.
  - assert (Hsame : posts (delete_stories_id destroy_rejects userId params_id w).2 = posts w)
      by (unfold delete_stories_id; handler_cases).
    by rewrite Hsame.
  - unfold delete_posts_id. handler_cases.
    rewrite lookup_delete_is_Some. tauto.
Qed.

Lemma serve_call_origin (now : Date) (c : Call) (st : Store) (id : ObjectId) :
  (is_Some (stories (world (step now c st)) !! id) → is_Some (stories (world st) !! id)) ∧
  (is_Some (posts (world (step now c st)) !! id) → is_Some (posts (world st) !! id)).
Proof.
  assert (Hsame : ∀ st', world st' = world st →
            (is_Some (stories (world st') !! id) → is_Some (stories (world st) !! id)) ∧
            (is_Some (posts (world st') !! id) → is_Some (posts (world st) !! id))).
  { by intros st' ->. }
  destruct c; cbn [serve_call].
  - cbn [world set_world]. split; [apply serve_story_origin | apply serve_post_origin].
  - by apply Hsame.
  - by apply Hsame.
  - apply Hsame. unfold get_posts_id. route_cases.
  - by apply Hsame.
  - by apply Hsame.
  - apply Hsame. by rewrite get_notifications_eq.
  - apply Hsame.
    by destruct (post_auth_register_cases errors username email password salt _id now st)
      as [-> | (_ & _ & ->)].
  - apply Hsame. unfold post_auth_login. route_cases.
Qed.

(** X27. Whatever the requests served, the Likes, the follow edges and the
    comments of the store are those it had at the start; every story and
    every post of the store was in it at the start (none is created); and
    the notifications are those of the start followed by notifications of
    type [story_view] only. *)
Theorem nothing_is_liked_followed_commented_or_created
    (trace : list (Date * Call)) (st : Store) :
  let st' := steps trace st in
  likes (world st') = likes (world st) ∧
  follows (world st') = follows (world st) ∧
  comments st' = comments st ∧
  (∀ id, is_Some (stories (world st') !! id) → is_Some (stories (world st) !! id)) ∧
  (∀ id, is_Some (posts (world st') !! id) → is_Some (posts (world st) !! id)) ∧
  ∃ added,
    notifications (world st') = notifications (world st) ++ added ∧
    Forall (λ n, Notification.type_ n = Notification.story_view) added.
Proof.
  revert st. induction trace as [|[now c] trace IH]; intros st.
  { cbn. repeat split; try done. exists []. by rewrite app_nil_r. }
  cbn [run_calls]. cbn zeta in IH |- *.
  destruct (IH (step now c st)) as (Hl & Hf & Hc & Hs & Hp & added2 & Hn2 & Hall2).
  destruct (serve_call_writes now c st) as (Hl1 & Hf1 & Hc1 & added1 & Hn1 & Hall1).
  split; [congruence|]. split; [congruence|]. split; [congruence|].
  split; [intros id Hid; by apply (serve_call_origin now c st id), Hs|].
  split; [intros id Hid; by apply (serve_call_origin now c st id), Hp|].
  exists (added1 ++ added2). split.
  - by rewrite Hn2, Hn1, app_assoc.
  - by apply Forall_app.
Qed.

Lemma serve_story_step (now : Date) (r : Request) (w : World) (id : ObjectId) (s : Story.t) :
  stories w !! id = Some s →
  match stories (serve destroy_rejects now r w) !! id with
  | Some s' =>
      s' = s ∨
      (r = CRON_story_expiration ∧ Story.expiresAt s ≤ now ∧ s' = Story.set_isActive false s)
  | None =>
      r = DELETE_stories_id (Story.userId s) id ∧ destroy_rejects (Story.mediaId s) = false
  end.
Proof.
  intros Hs.
  assert (Hsame : ∀ w', stories w' = stories w →
            match stories w' !! id with
            | Some s' => s' = s ∨ (r = CRON_story_expiration ∧ Story.expiresAt s ≤ now ∧
                                    s' = Story.set_isActive false s)
            | None => r = DELETE_stories_id (Story.userId s) id ∧
                      destroy_rejects (Story.mediaId s) = false
            end).
  { intros w' ->. rewrite Hs. by left. }
  destruct r; cbn [serve].
  - by apply Hsame.
  - by apply Hsame.
  - apply Hsame. unfold post_stories_view. handler_cases.
  - destruct (decide (params_id = id)) as [->|Hne].
    + destruct (decide (Story.userId s = userId)) as [<-|Hown].
      * destruct (destroy_rejects (Story.mediaId s)) eqn:Hd.
        -- rewrite (delete_stories_id_destroy_rejected destroy_rejects id w s Hs Hd).
           by apply Hsame.
        -- rewrite (delete_stories_id_deleted destroy_rejects id w s Hs Hd).
           cbn [snd stories set_stories set_destroyed]. by rewrite lookup_delete_eq.
      * rewrite (delete_stories_id_forbidden destroy_rejects userId id w s Hs Hown).
        by apply Hsame.
    + assert (Hkeep : stories (delete_stories_id destroy_rejects userId params_id w).2 !! id
                      = Some s).
      { unfold delete_stories_id. handler_cases; by rewrite lookup_delete_ne. }
      rewrite Hkeep. by left.
  - apply Hsame. unfold delete_posts_id. handler_cases.
  - by apply Hsame.
  - by apply Hsame.
  - by apply Hsame.
  - by apply Hsame.
  - rewrite story_expiration_job_lookup, Hs. cbn.
    destruct (decide (Story.expiresAt s ≤ now)); [by right|by left].
Qed.

Lemma serve_call_story_step (now : Date) (c : Call) (st : Store) (id : ObjectId) (s : Story.t) :
  stories (world st) !! id = Some s →
  match stories (world (step now c st)) !! id with
  | Some s' =>
      s' = s ∨
      (c = Base CRON_story_expiration ∧ Story.expiresAt s ≤ now ∧
       s' = Story.set_isActive false s)
  | None =>
      c = Base (DELETE_stories_id (Story.userId s) id) ∧
      destroy_rejects (Story.mediaId s) = false
  end.
Proof.
  intros Hs.
  assert (Hsame : ∀ st', stories (world st') = stories (world st) →
            match stories (world st') !! id with
            | Some s' => s' = s ∨ (c = Base CRON_story_expiration ∧ Story.expiresAt s ≤ now ∧
                                    s' = Story.set_isActive false s)
            | None => c = Base (DELETE_stories_id (Story.userId s) id) ∧
                      destroy_rejects (Story.mediaId s) = false
            end).
  { intros st' ->. rewrite Hs. by left. }
  destruct c; cbn [serve_call].
  - cbn [world set_world]. pose proof (serve_story_step now r (world st) id s Hs) as Hstep.
    destruct (stories (serve destroy_rejects now r (world st)) !! id) as [s'|].
    + destruct Hstep as [->|(-> & Hle & ->)]; [by left|by right].
    + by destruct Hstep as [-> Hd].
  - by apply Hsame.
  - by apply Hsame.
  - apply Hsame. unfold get_posts_id. route_cases.
  - by apply Hsame.
  - by apply Hsame.
  - apply Hsame. unfold get_notifications. route_cases.
  - apply Hsame. unfold post_auth_register. route_cases.
  - apply Hsame. unfold post_auth_login. route_cases.
Qed.

(** X23. What can happen to a story: whatever the requests served, a story
    of the store is either still there with the same owner, media, caption,
    creation and expiry times, its [isActive] flag possibly cleared but
    never set again, or it has at some point been deleted by a request of
    its owner for which the media service's [destroy] resolved.  Nothing
    else removes or rewrites a story. *)
Theorem story_changes_only_by_sweep_or_owner_delete
    (trace : list (Date * Call)) (st : Store) (id : ObjectId) (s : Story.t) :
  stories (world st) !! id = Some s →
  (∃ now, (now, Base (DELETE_stories_id (Story.userId s) id)) ∈ trace ∧
          destroy_rejects (Story.mediaId s) = false) ∨
  (∃ s', stories (world (steps trace st)) !! id = Some s' ∧
         Story.userId s' = Story.userId s ∧ Story.mediaUrl s' = Story.mediaUrl s ∧
         Story.mediaId s' = Story.mediaId s ∧ Story.caption s' = Story.caption s ∧
         Story.createdAt s' = Story.createdAt s ∧ Story.expiresAt s' = Story.expiresAt s ∧
         (Story.isActive s' = true → Story.isActive s = true)).
Proof.
  revert st s. induction trace as [|[now c] trace IH]; intros st s Hs.
  { right. exists s. by repeat split. }
  cbn [run_calls].
  pose proof (serve_call_story_step now c st id s Hs) as Hstep.
  destruct (stories (world (step now c st)) !! id) as [s1|] eqn:H1.
  - assert (Hrel : Story.userId s1 = Story.userId s ∧ Story.mediaUrl s1 = Story.mediaUrl s ∧
              Story.mediaId s1 = Story.mediaId s ∧ Story.caption s1 = Story.caption s ∧
              Story.createdAt s1 = Story.createdAt s ∧
              Story.expiresAt s1 = Story.expiresAt s ∧
              (Story.isActive s1 = true → Story.isActive s = true)).
    { destruct Hstep as [->|(_ & _ & ->)]; [by repeat split|]. by repeat split. }
    destruct Hrel as (Hu & Hurl & Hm & Hc & Hcr & He & Ha).
    destruct (IH _ s1 H1) as [(t & Hin & Hd) | (s' & Hs' & Hu' & Hurl' & Hm' & Hc' & Hcr' & He' & Ha')].
    + left. exists t. rewrite <- Hu, <- Hm. split; [by right|done].
    + right. exists s'. split; [done|]. repeat split; try congruence. tauto.
  - left. destruct Hstep as [-> Hd]. exists now. split; [left|done].
Qed.

Lemma serve_post_step (now : Date) (r : Request) (w : World) (id : ObjectId) (p : Post.t) :
  posts w !! id = Some p →
  posts (serve destroy_rejects now r w) !! id = Some p ∨
  (posts (serve destroy_rejects now r w) !! id = None ∧
   r = DELETE_posts_id (Post.userId p) id ∧ destroy_rejects (Post.mediaId p) = false).
Proof.
  intros Hp.
  assert (Hsame : ∀ w', posts w' = posts w → posts w' !! id = Some p ∨
            (posts w' !! id = None ∧ r = DELETE_posts_id (Post.userId p) id ∧
             destroy_rejects (Post.mediaId p) = false)).
  { intros w' ->. by left. }
  destruct r; cbn [serve].
  - by apply Hsame.
  - by apply Hsame.
  - apply Hsame. unfold post_stories_view. handler_cases.
  - apply Hsame. unfold delete_stories_id. handler_cases.
  - destruct (decide (params_id = id)) as [->|Hne].
    + destruct (decide (Post.userId p = userId)) as [<-|Hown].
      * destruct (destroy_rejects (Post.mediaId p)) eqn:Hd.
        -- rewrite (delete_posts_id_destroy_rejected destroy_rejects id w p Hp Hd).
           by apply Hsame.
        -- rewrite (delete_posts_id_deleted destroy_rejects id w p Hp Hd).
           cbn [snd posts set_posts set_destroyed]. right. by rewrite lookup_delete_eq.
      * rewrite (delete_posts_id_forbidden destroy_rejects userId id w p Hp Hown).
        by apply Hsame.
    + left. unfold delete_posts_id. handler_cases; by rewrite lookup_delete_ne.
  - by apply Hsame.
  - by apply Hsame.
  - by apply Hsame.
  - by apply Hsame.
  - by apply Hsame.
Qed.

Lemma serve_call_post_step (now : Date) (c : Call) (st : Store) (id : ObjectId) (p : Post.t) :
  posts (world st) !! id = Some p →
  posts (world (step now c st)) !! id = Some p ∨
  (posts (world (step now c st)) !! id = None ∧
   c = Base (DELETE_posts_id (Post.userId p) id) ∧ destroy_rejects (Post.mediaId p) = false).
Proof.
  intros Hp.
  assert (Hsame : ∀ st', posts (world st') = posts (world st) →
            posts (world st') !! id = Some p ∨
            (posts (world st') !! id = None ∧
             c = Base (DELETE_posts_id (Post.userId p) id) ∧
             destroy_rejects (Post.mediaId p) = false)).
  { intros st' ->. by left. }
  destruct c; cbn [serve_call].
  - cbn [world set_world].
    destruct (serve_post_step now r (world st) id p Hp) as [Hkeep | (Hgone & -> & Hd)];
      [by left|by right].
  - by apply Hsame.
  - by apply Hsame.
  - apply Hsame. unfold get_posts_id. route_cases.
  - by apply Hsame.
  - by apply Hsame.
  - apply Hsame. unfold get_notifications. route_cases.
  - apply Hsame. unfold post_auth_register. route_cases.
  - apply Hsame. unfold post_auth_login. route_cases.
Qed.

(** X24. What can happen to a post: whatever the requests served, a post of
    the store is either still there, unchanged in every field, or it has at
    some point been deleted by a request of its owner for which the media
    service's [destroy] resolved.  No request edits a post, and no request
    of another user removes it. *)
Theorem post_changes_only_by_owner_delete
    (trace : list (Date * Call)) (st : Store) (id : ObjectId) (p : Post.t) :
  posts (world st) !! id = Some p →
  (∃ now, (now, Base (DELETE_posts_id (Post.userId p) id)) ∈ trace ∧
          destroy_rejects (Post.mediaId p) = false) ∨
  posts (world (steps trace st)) !! id = Some p.
Proof.
  revert st. induction trace as [|[now c] trace IH]; intros st Hp; [by right|].
  cbn [run_calls].
  destruct (serve_call_post_step now c st id p Hp) as [Hkeep | (_ & -> & Hd)].
  - destruct (IH _ Hkeep) as [(t & Hin & Hd) | Hlast]; [|by right].
    left. exists t. split; [by right|done].
  - left. exists now. split; [left|done].
Qed.

End EveryCall.

Lemma usernames_and_emails_stay_unique_witness :
  let ok := λ _ : string, false in
  let hash := λ pw salt : string, "bcrypt:" +:+ pw in
  let compare := λ pw stored : string, bool_decide (stored = "bcrypt:" +:+ pw) in
  let sign := λ (i : ObjectId) (t : Date), "token" in
  let trace :=
    [(10, POST_auth_register [] "ann" "ann@example.org" "secret1" "s" 1%N);
     (11, POST_auth_register [] "ann" "ann2@example.org" "secret2" "s" 2%N);
     (12, POST_auth_register [] "bob" "ann@example.org" "secret3" "s" 3%N);
     (13, POST_auth_register [] "bob" "bob@example.org" "secret4" "s" 4%N);
     (14, POST_auth_login [] "bob@example.org" "secret4")] in
  users_unique empty_store ∧
  users_unique (run_calls ok hash compare sign trace empty_store) ∧
  users (run_calls ok hash compare sign trace empty_store) =
    {[ 1%N := User.mk "ann" "ann@example.org" "bcrypt:secret1" None None None 10;
       4%N := User.mk "bob" "bob@example.org" "bcrypt:secret4" None None None 13 ]}.
Proof.
  intros ok hash compare sign trace.
  assert (H0 : users_unique empty_store).
  { intros i j u v Hi. cbn in Hi. by rewrite lookup_empty in Hi. }
  split; [exact H0|]. split.
  - exact (proj2 (usernames_and_emails_stay_unique ok hash compare sign trace empty_store) H0).
  - by vm_compute.
Defined.

Lemma story_changes_only_by_sweep_or_owner_delete_witness :
  let ok := λ _ : string, false in
  let hash := λ pw salt : string, "bcrypt:" +:+ pw in
  let compare := λ pw stored : string, bool_decide (stored = "bcrypt:" +:+ pw) in
  let sign := λ (i : ObjectId) (t : Date), "token" in
  let s := Story.mk 2 "https://media/m1" "stories/2/m1" None 0 1000 true in
  let st := mkStore (mkWorld {[ 7%N := s ]} ∅ [] [] [] [] []) [] ∅ in
  let trace :=
    [(10, Base (POST_stories_view 1%N 7%N));
     (20, Base (DELETE_stories_id 1%N 7%N));
     (30, POST_stories 1%N None (Some "/tmp/a.jpg"));
     (2000, Base CRON_story_expiration)] in
  stories (world st) !! 7%N = Some s ∧
  stories (world (run_calls ok hash compare sign trace st)) !! 7%N =
    Some (Story.set_isActive false s) ∧
  ((∃ now, (now, Base (DELETE_stories_id (Story.userId s) 7%N)) ∈ trace ∧
           ok (Story.mediaId s) = false) ∨
   (∃ s', stories (world (run_calls ok hash compare sign trace st)) !! 7%N = Some s' ∧
          Story.userId s' = Story.userId s ∧ Story.mediaUrl s' = Story.mediaUrl s ∧
          Story.mediaId s' = Story.mediaId s ∧ Story.caption s' = Story.caption s ∧
          Story.createdAt s' = Story.createdAt s ∧ Story.expiresAt s' = Story.expiresAt s ∧
          (Story.isActive s' = true → Story.isActive s = true))).
Proof.
  intros ok hash compare sign s st trace.
  assert (Hs : stories (world st) !! 7%N = Some s) by reflexivity.
  split; [exact Hs|]. split; [reflexivity|].
  exact (story_changes_only_by_sweep_or_owner_delete ok hash compare sign trace st 7%N s Hs).
Defined.

Lemma post_changes_only_by_owner_delete_witness :
  let ok := λ _ : string, false in
  let hash := λ pw salt : string, "bcrypt:" +:+ pw in
  let compare := λ pw stored : string, bool_decide (stored = "bcrypt:" +:+ pw) in
  let sign := λ (i : ObjectId) (t : Date), "token" in
  let p := Post.mk 2 "https://media/p1" "posts/2/p1" None [] 0 in
  let st := mkStore (mkWorld ∅ {[ 5%N := p ]} [] [] [] [] []) [] ∅ in
  let trace :=
    [(10, Base (DELETE_posts_id 1%N 5%N));
     (20, POST_posts 1%N None [] (Some "/tmp/a.jpg"));
     (30, POST_interactions_comment 1%N "000000000000000000000005" "nice")] in
  posts (world st) !! 5%N = Some p ∧
  ((∃ now, (now, Base (DELETE_posts_id (Post.userId p) 5%N)) ∈ trace ∧
           ok (Post.mediaId p) = false) ∨
   posts (world (run_calls ok hash compare sign trace st)) !! 5%N = Some p).
Proof.
  intros ok hash compare sign p st trace.
  assert (Hp : posts (world st) !! 5%N = Some p) by reflexivity.
  split; [exact Hp|].
  exact (post_changes_only_by_owner_delete ok hash compare sign trace st 5%N p Hp).
Defined.
